(** * Sky table storage engine (package [db]): a shallow embedding

    This development embeds the parts of the [db] package of Sky that the
    table's event, schema and factor operations go through:
    - [db/time.go]: the shifted timestamp codec;
    - [db/property.go]: properties, [Validate], [Cast] (and [promote]);
    - the LMDB transaction wrapper ([transaction.getAt], [putAt], [delAt],
      [getAll], [get], [put]);
    - [Table] ([GetEvent], [GetEvents], [InsertEvent], [DeleteEvent],
      [CreateProperty], [RenameProperty], [DeleteProperty], [PropertyByID],
      [Factorize], [Defactorize] and their helpers).

    Go integers are [Z]; a Go time value is the instant it denotes, as [Z]
    nanoseconds since the Unix epoch.  Go maps are stdpp [gmap]s; where the
    Go code ranges over a map, the embedding ranges over [map_to_list], one
    of the orders Go may pick.  Go's [panic]s (nil pointer, index out of
    range) are the [Panic] outcome. *)

From Stdlib Require Import ZArith Lia String Ascii List Bool.
From Stdlib Require Import SpecFloat Sorted.
From stdpp Require Import base gmap strings list.

Open Scope Z_scope.

(* ------------------------------------------------------------------ *)
(** ** Go integers *)

(** Two's complement wrap-around of a Go [int64] result. *)
Definition wrap64 (z : Z) : Z :=
  let u := z mod 2 ^ 64 in if u <? 2 ^ 63 then u else u - 2 ^ 64.

(** ** db/time.go *)

Definition SecondsBitOffset : Z := 20.

(** [shiftTime]: [value.UnixNano() / 1000], then Go's truncating [%] and
    [/] by 1000000, then [(sec << 20) + usec] in [int64]. *)
Definition shiftTime (unixNano : Z) : Z :=
  let timestamp := Z.quot unixNano 1000 in
  let usec := Z.rem timestamp 1000000 in
  let sec := Z.quot timestamp 1000000 in
  wrap64 (wrap64 (Z.shiftl sec SecondsBitOffset) + usec).

(** [unshiftTime]: [usec := value & 0xFFFFF], [sec := value >> 20]
    (arithmetic shift), [time.Unix(sec, usec*1000)], as nanoseconds. *)
Definition unshiftTime (value : Z) : Z :=
  let usec := Z.land value 1048575 in
  let sec := Z.shiftr value SecondsBitOffset in
  sec * 1000000000 + usec * 1000.

(** [binary.Write(&buf, binary.BigEndian, timestamp)] for an [int64]: the
    eight bytes of its two's complement, most significant first. *)
Definition be64 (v : Z) : list Z :=
  let u := v mod 2 ^ 64 in
  map (fun k => Z.land (Z.shiftr u (8 * k)) 255) [7; 6; 5; 4; 3; 2; 1; 0].

(** [binary.Read] of an [int64] from eight big-endian bytes. *)
Definition read_be64 (b : list Z) : Z :=
  wrap64 (fold_left (fun acc x => acc * 256 + x) b 0).

(** Byte strings compare as LMDB's default [memcmp] order: lexicographic,
    a proper prefix first. *)
Fixpoint bytes_ltb (a b : list Z) : bool :=
  match a, b with
  | [], [] => false
  | [], _ :: _ => true
  | _ :: _, [] => false
  | x :: a', y :: b' => (x <? y) || ((x =? y) && bytes_ltb a' b')
  end.

Definition bytes_leb (a b : list Z) : bool :=
  bytes_ltb a b || bool_decide (a = b).

(* ------------------------------------------------------------------ *)
(** ** More of db/time.go *)

(** [binary.BigEndian.Uint64]: the unsigned value of big-endian bytes. *)
Definition be_uvalue (b : list Z) : Z := fold_left (fun acc x => acc * 256 + x) b 0.

(** [shiftTimeBytes]: [binary.BigEndian.PutUint64(bs, uint64(shiftTime(value)))]. *)
Definition shiftTimeBytes (unixNano : Z) : list Z := be64 (shiftTime unixNano).

(** [unshiftTimeBytes]: [unshiftTime(int64(binary.BigEndian.Uint64(value)))];
    [Uint64] reads the first eight bytes and panics on a shorter slice
    ([None]). *)
Definition unshiftTimeBytes (value : list Z) : option Z :=
  if (length value <? 8)%nat then None
  else Some (unshiftTime (wrap64 (be_uvalue (firstn 8 value)))).

(* ------------------------------------------------------------------ *)
(** ** Dynamic values ([interface{}]) *)

(** A Go [float64]: an IEEE-754 binary64 datum as Stdlib's [spec_float]. *)
Definition float64 := spec_float.

(** [float64(v)] for an [int64] [v]: round to nearest even. *)
Definition float64_of_int (z : Z) : float64 :=
  binary_normalize 53 1024 z 0 false.

(** [int64(f)] for a [float64] [f]: truncation toward zero; values out of
    range (and NaN, infinities) give the [amd64] result [-2^63]. *)
Definition int64_of_float (f : float64) : Z :=
  match f with
  | S754_zero _ => 0
  | S754_finite s m e =>
      let mag := if 0 <=? e then Z.pos m * 2 ^ e else Z.pos m / 2 ^ (- e) in
      let z := if s then - mag else mag in
      if (- 2 ^ 63 <=? z) && (z <? 2 ^ 63) then z else - 2 ^ 63
  | _ => - 2 ^ 63
  end.

(** The dynamic values an event carries.  Every signed integer width is
    already promoted to [int64] ([VInt]), every float width to [float64];
    [uint64] stays apart, as [promote] leaves it. *)
Inductive Value :=
  | VString (s : string)
  | VInt (z : Z)
  | VUint64 (z : Z)
  | VFloat (f : float64)
  | VBool (b : bool)
  | VNil.

Global Instance spec_float_eq_dec : EqDecision spec_float.
Proof. solve_decision. Defined.
Global Instance Value_eq_dec : EqDecision Value.
Proof. solve_decision. Defined.

(** [promote]: integer widths to [int64], float widths to [float64]; on the
    normalised values above it is the identity. *)
Definition promote (v : Value) : Value := v.

(* ------------------------------------------------------------------ *)
(** ** db/types.go, db/property.go *)

Definition Boolean : string := "boolean".
Definition Factor : string := "factor".
Definition Float : string := "float".
Definition Integer : string := "integer".
Definition String_ : string := "string".

Record Property := mkProperty {
  p_ID : Z;
  p_Name : string;
  p_DataType : string;
  p_Transient : bool
}.

Global Instance Property_eq_dec : EqDecision Property.
Proof. solve_decision. Defined.

(** [Cast]: the Go [0] of the numeric fallbacks is an [int], which the
    event codec stores and reads back as the [int64] [0]. *)
Definition Cast (p : Property) (v : Value) : Value :=
  if bool_decide (p_DataType p = Factor) || bool_decide (p_DataType p = String_) then
    match v with VString s => VString s | _ => VString "" end
  else if bool_decide (p_DataType p = Integer) then
    match promote v with
    | VInt z => VInt z
    | VFloat f => VInt (int64_of_float f)
    | _ => VInt 0
    end
  else if bool_decide (p_DataType p = Float) then
    match promote v with
    | VFloat f => VFloat f
    | VInt z => VFloat (float64_of_int z)
    | _ => VInt 0
    end
  else if bool_decide (p_DataType p = Boolean) then
    match v with VBool b => VBool b | _ => VBool false end
  else v.

(** Go's [\w]: [0-9A-Za-z_]. *)
Definition isWordChar (a : ascii) : bool :=
  let n := nat_of_ascii a in
  ((48 <=? n) && (n <=? 57))%nat || ((65 <=? n) && (n <=? 90))%nat
  || ((97 <=? n) && (n <=? 122))%nat || (n =? 95)%nat.

Fixpoint all_word (s : string) : bool :=
  match s with
  | EmptyString => true
  | String a s' => isWordChar a && all_word s'
  end.

Inductive Error :=
  | ErrTableNotOpen (table : string)
  | ErrPropertyExists (name : string)
  | ErrPropertyNotFound (name : string)
  | ErrInvalidPropertyName
  | ErrInvalidDataType
  | ErrObjectIDRequired
  | ErrFactorNotFound (propertyID index : Z)
  | ErrInvalidFactorValue
  | ErrStorage (msg : string).

(** [Validate]. *)
Definition Validate (p : Property) : option Error :=
  if bool_decide (p_Name p = "") || negb (all_word (p_Name p)) then
    Some ErrInvalidPropertyName
  else if bool_decide (p_DataType p ∈ [Factor; String_; Integer; Float; Boolean]) then None
  else Some ErrInvalidDataType.

(* ------------------------------------------------------------------ *)
(** ** Outcomes and the state-and-error monad *)

(** A Go call returns a value, returns an error, or panics. *)
Inductive outcome (A : Type) :=
  | Ok (a : A)
  | Err (e : Error)
  | Panic (msg : string).
Arguments Ok {A} a.
Arguments Err {A} e.
Arguments Panic {A} msg.

(** Code that mutates an [S] in place and returns [(A, error)]: the state
    is returned on every path, errors included, as Go keeps the mutations
    made before an early [return err]. *)
Definition ST (S A : Type) := S -> outcome A * S.

Definition ret {S A} (a : A) : ST S A := fun s => (Ok a, s).
Definition fail {S A} (e : Error) : ST S A := fun s => (Err e, s).
Definition crash {S A} (msg : string) : ST S A := fun s => (Panic msg, s).
Definition bind {S A B} (m : ST S A) (k : A -> ST S B) : ST S B :=
  fun s => match m s with
           | (Ok a, s') => k a s'
           | (Err e, s') => (Err e, s')
           | (Panic msg, s') => (Panic msg, s')
           end.
Definition get {S} : ST S S := fun s => (Ok s, s).
Definition put {S} (s : S) : ST S unit := fun _ => (Ok tt, s).
Definition modify {S} (f : S -> S) : ST S unit := fun s => (Ok tt, f s).

Notation "'let*' x := m 'in' k" := (bind m (fun x => k))
  (at level 200, x name, m at level 100, k at level 200).

(** [if err := m; err != nil { ... }] where the error is dropped. *)
Definition catch_err {S A} (m : ST S A) : ST S (option A) :=
  fun s => match m s with
           | (Ok a, s') => (Ok (Some a), s')
           | (Err _, s') => (Ok None, s')
           | (Panic msg, s') => (Panic msg, s')
           end.

Fixpoint mapM {S A B} (f : A -> ST S B) (l : list A) : ST S (list B) :=
  match l with
  | [] => ret []
  | x :: l' => let* y := f x in let* ys := mapM f l' in ret (y :: ys)
  end.

(* ------------------------------------------------------------------ *)
(** ** The per-property factor cache *)

(** Modelled from the spec: the LRU factor cache ([cache], [newCache],
    [getValue], [getKey], [add]; its file is not part of the sources).
    The spec (4.2) describes a fixed-capacity bidirectional associative
    cache, [get_by_string], [get_by_int], [insert(s, i)], evicting the
    least recently used entry on either access.  It is a list of
    string/index pairs, most recently used first; [add] binds [s] and [i]
    to each other, dropping any older pair that bound either. *)
Record cache := mkCache {
  c_size : nat;
  c_items : list (string * Z)
}.

Definition newCache (size : nat) : cache := mkCache size [].

Definition FactorCacheSize : nat := 1000.

Fixpoint find_split {A} (f : A -> bool) (l : list A) : option (A * list A) :=
  match l with
  | [] => None
  | x :: l' => if f x then Some (x, l')
               else match find_split f l' with
                    | Some (y, rest) => Some (y, x :: rest)
                    | None => None
                    end
  end.

Definition cache_getValue (c : cache) (key : string) : option (Z * cache) :=
  match find_split (fun '(k, _) => bool_decide (k = key)) (c_items c) with
  | Some ((k, v), rest) => Some (v, mkCache (c_size c) ((k, v) :: rest))
  | None => None
  end.

Definition cache_getKey (c : cache) (value : Z) : option (string * cache) :=
  match find_split (fun '(_, v) => bool_decide (v = value)) (c_items c) with
  | Some ((k, v), rest) => Some (k, mkCache (c_size c) ((k, v) :: rest))
  | None => None
  end.

Definition cache_add (c : cache) (key : string) (value : Z) : cache :=
  mkCache (c_size c)
    (firstn (c_size c)
       ((key, value) :: filter (fun '(k, v) => negb (bool_decide (k = key))
                                              && negb (bool_decide (v = value)))
                              (c_items c))).

(* ------------------------------------------------------------------ *)
(** ** The LMDB environment of a table *)

(** A factor DBI ["factors/{id}"]: its keys are ["+"] (the sequence, an
    8-byte big-endian [uint64]), [">" + value] (value to index) and
    ["<" + decimal(index)] (index to value).  The three families differ in
    their first byte, so they are kept as three maps. *)
Record FactorDB := mkFactorDB {
  fd_seq : option Z;
  fd_fwd : gmap string Z;
  fd_rev : gmap Z string
}.

Definition emptyFactorDB : FactorDB := mkFactorDB None ∅ ∅.

(** A raw event as the event codec stores it: the bytes are
    [be64(timestamp) ++ msgpack(data)].  The eight-byte prefix is kept as
    bytes; the msgpack body is kept as the map it encodes, which the
    decoder restores (and [normalize], i.e. [promote], leaves as is). *)
Record StoredValue := mkStored {
  sv_prefix : list Z;
  sv_data : gmap Z Value
}.

Global Instance StoredValue_eq_dec : EqDecision StoredValue.
Proof. solve_decision. Defined.

(** The metadata record [marshal] writes under key ["meta"]. *)
Record Meta := mkMeta {
  m_name : string;
  m_shardCount : Z;
  m_maxPermanentID : Z;
  m_maxTransientID : Z;
  m_properties : list Property
}.

(** The environment: DBI ["meta"], the dup-sort DBIs ["shards/{i}"] (key:
    object id; the duplicates of a key in LMDB's order) and the factor
    DBIs.  A DBI exists iff it has an entry here.  [env_full]: the memory
    map has no free page left, so every write fails with [MDB_MAP_FULL]. *)
Record Env := mkEnv {
  env_full : bool;
  env_meta : option Meta;
  env_shards : gmap Z (gmap string (list StoredValue));
  env_factors : gmap Z FactorDB
}.

Definition ErrMapFull : Error := ErrStorage "MDB_MAP_FULL: Environment mapsize limit reached".

(** The table's in-memory state ([struct Table]; the statistics counters
    and the lock are not modelled).  [t_env = None] is [env == nil]: the
    table is not open. *)
Record Table := mkTable {
  t_name : string;
  t_env : option Env;
  t_properties : gmap string Property;
  t_propertiesByID : gmap Z Property;
  t_caches : gmap Z cache;
  t_shardCount : Z;
  t_maxPermanentID : Z;
  t_maxTransientID : Z
}.

Definition set_env (e : Env) (t : Table) : Table :=
  mkTable (t_name t) (Some e) (t_properties t) (t_propertiesByID t) (t_caches t)
    (t_shardCount t) (t_maxPermanentID t) (t_maxTransientID t).
Definition set_maps (ps : gmap string Property) (pids : gmap Z Property) (t : Table) : Table :=
  mkTable (t_name t) (t_env t) ps pids (t_caches t)
    (t_shardCount t) (t_maxPermanentID t) (t_maxTransientID t).
Definition set_caches (cs : gmap Z cache) (t : Table) : Table :=
  mkTable (t_name t) (t_env t) (t_properties t) (t_propertiesByID t) cs
    (t_shardCount t) (t_maxPermanentID t) (t_maxTransientID t).
Definition set_ids (maxP maxT : Z) (t : Table) : Table :=
  mkTable (t_name t) (t_env t) (t_properties t) (t_propertiesByID t) (t_caches t)
    (t_shardCount t) maxP maxT.

(** [opened]. *)
Definition opened (t : Table) : bool :=
  match t_env t with Some _ => true | None => false end.

(** [Table.txn(flags, fn)]: [BeginTxn] on a nil environment dereferences
    nil; if [fn] fails the transaction is aborted (no change); otherwise it
    commits.  A read-only transaction never changes the environment. *)
Definition txn {A} (readonly : bool) (fn : ST Env A) : ST Table A :=
  fun t => match t_env t with
           | None => (Panic "invalid memory address or nil pointer dereference", t)
           | Some env =>
               match fn env with
               | (Ok a, env') => (Ok a, if readonly then t else set_env env' t)
               | (Err e, _) => (Err e, t)
               | (Panic msg, _) => (Panic msg, t)
               end
           end.

(** [if err := m; err != nil { undo; return err }]. *)
Definition catch {S A} (m : ST S A) (h : Error -> ST S A) : ST S A :=
  fun s => match m s with
           | (Err e, s') => h e s'
           | r => r
           end.

Fixpoint foldM {S A B} (f : B -> A -> ST S B) (acc : B) (l : list A) : ST S B :=
  match l with
  | [] => ret acc
  | x :: l' => let* acc' := f acc x in foldM f acc' l'
  end.

(* ------------------------------------------------------------------ *)
(** ** hash.Local: FNV-1a 64 of the object id, low 32 bits *)

Definition fnv_offset64 : Z := 14695981039346656037.
Definition fnv_prime64 : Z := 1099511628211.

Definition fnv1a64 (s : string) : Z :=
  fold_left (fun h a => (Z.lxor h (Z.of_nat (nat_of_ascii a)) * fnv_prime64) mod 2 ^ 64)
    (list_ascii_of_string s) fnv_offset64.

Definition hashLocal (id : string) : Z := Z.land (fnv1a64 id) (2 ^ 32 - 1).

(* ------------------------------------------------------------------ *)
(** ** transaction (the LMDB wrapper), on a transaction's view of the
    environment *)

Definition ErrDBI : Error := ErrStorage "dbi error".

(** [&key[0]] on an empty key. *)
Definition key_panic : string := "index out of range [0] with length 0".

Definition shard_dbi (i : Z) : ST Env (gmap string (list StoredValue)) :=
  let* env := get in
  match env_shards env !! i with
  | Some d => ret d
  | None => fail ErrDBI
  end.

(** [mdb_cursor_get(..., MDB_GET_BOTH_RANGE)] on a key's duplicates: the
    first one whose bytes are [>=] the (eight-byte) prefix.  A value's bytes
    start with its eight-byte [sv_prefix], so this compares the prefixes. *)
Definition get_both_range (prefix : list Z) (dups : list StoredValue) : option StoredValue :=
  List.find (fun v => bytes_leb prefix (sv_prefix v)) dups.

(** [bytes.HasPrefix(value, prefix)]. *)
Definition has_prefix (v : StoredValue) (prefix : list Z) : bool :=
  bool_decide (firstn (length prefix) (sv_prefix v) = prefix).

(** [transaction.getAt]. *)
Definition getAt (i : Z) (key : string) (prefix : list Z) : ST Env (option StoredValue) :=
  let* dbi := shard_dbi i in
  if bool_decide (key = "") then crash key_panic else
  match dbi !! key with
  | None => ret None
  | Some dups =>
      match get_both_range prefix dups with
      | None => ret None
      | Some v => if has_prefix v prefix then ret (Some v) else ret None
      end
  end.

(** [transaction.getAll]: every duplicate of the key, in LMDB's order. *)
Definition getAll (i : Z) (key : string) : ST Env (option (list StoredValue)) :=
  let* dbi := shard_dbi i in
  if bool_decide (key = "") then crash key_panic else
  ret (dbi !! key).

Definition set_shard (i : Z) (key : string) (dups : list StoredValue) (env : Env) : Env :=
  let d := default ∅ (env_shards env !! i) in
  let d' := match dups with [] => delete key d | _ => <[key := dups]> d end in
  mkEnv (env_full env) (env_meta env) (<[i := d']> (env_shards env)) (env_factors env).

Fixpoint remove_first (v : StoredValue) (l : list StoredValue) : list StoredValue :=
  match l with
  | [] => []
  | w :: l' => if bool_decide (w = v) then l' else w :: remove_first v l'
  end.

(** [transaction.delAt]: position as [getAt] and delete the located value
    ([mdb_cursor_del]); the last duplicate of a key takes the key away. *)
Definition delAt (i : Z) (key : string) (prefix : list Z) : ST Env unit :=
  let* dbi := shard_dbi i in
  if bool_decide (key = "") then crash key_panic else
  match dbi !! key with
  | None => ret tt
  | Some dups =>
      match get_both_range prefix dups with
      | None => ret tt
      | Some v =>
          if has_prefix v prefix then
            let* env := get in
            if env_full env then fail ErrMapFull
            else put (set_shard i key (remove_first v dups) env)
          else ret tt
      end
  end.

(** Sorted insertion of a duplicate.  LMDB orders duplicates by their bytes;
    values with different prefixes are ordered by the prefixes.  Among
    values sharing a prefix LMDB would compare the msgpack bodies; the
    table never stores two such values ([putAt] deletes first), and the new
    value is placed after them. *)
Fixpoint dup_insert (v : StoredValue) (l : list StoredValue) : list StoredValue :=
  match l with
  | [] => [v]
  | w :: l' => if bytes_ltb (sv_prefix v) (sv_prefix w) then v :: w :: l'
               else w :: dup_insert v l'
  end.

(** [txn.Put(dbi, key, value, mdb.NODUPDATA)] on a dup-sort DBI. *)
Definition put_dup (i : Z) (key : string) (v : StoredValue) : ST Env unit :=
  let* dbi := shard_dbi i in
  let* env := get in
  if env_full env then fail ErrMapFull else
  let dups := default [] (dbi !! key) in
  if bool_decide (v ∈ dups) then fail (ErrStorage "MDB_KEYEXIST")
  else put (set_shard i key (dup_insert v dups) env).

(** [transaction.putAt]. *)
Definition putAt (i : Z) (key : string) (prefix : list Z) (v : StoredValue) : ST Env unit :=
  let* _ := delAt i key prefix in
  put_dup i key v.

Definition factor_dbi (pid : Z) : ST Env FactorDB :=
  let* env := get in
  match env_factors env !! pid with
  | Some fd => ret fd
  | None => fail ErrDBI
  end.

(** A [txn.put] into the factor DBI of [pid], changing it by [f]. *)
Definition factor_put (pid : Z) (f : FactorDB -> FactorDB) : ST Env unit :=
  let* fd := factor_dbi pid in
  let* env := get in
  if env_full env then fail ErrMapFull else
  put (mkEnv (env_full env) (env_meta env) (env_shards env)
         (<[pid := f fd]> (env_factors env))).

(** [txn.dbi(factorDBName(id), 0)] followed by [assert(err == nil, ...)]:
    creating a named DBI writes to the main DBI; a failure is a panic. *)
Definition factor_dbi_create (pid : Z) : ST Env unit :=
  let* env := get in
  match env_factors env !! pid with
  | Some _ => ret tt
  | None =>
      if env_full env then crash "factor dbi error"
      else put (mkEnv (env_full env) (env_meta env) (env_shards env)
                  (<[pid := emptyFactorDB]> (env_factors env)))
  end.

(** [txn.put("meta", []byte("meta"), value)]. *)
Definition meta_put (m : Meta) : ST Env unit :=
  let* env := get in
  if env_full env then fail ErrMapFull else
  put (mkEnv (env_full env) (Some m) (env_shards env) (env_factors env)).

(* ------------------------------------------------------------------ *)
(** ** Table: factors *)

Definition maxKeySize : nat := 500.

(** [truncateFactor]: [value[0:maxKeySize]] when longer. *)
Definition truncateFactor (value : string) : string :=
  if (maxKeySize <? String.length value)%nat then substring 0 maxKeySize value else value.

(** [factorKey]: [">" + truncateFactor(value)]; the map [fd_fwd] is keyed
    by the part after [">"]. *)
Definition factorKey (value : string) : string := truncateFactor value.

(** [t.caches[propertyID]]: a nil [*cache] for a property without a
    cache, whose methods dereference it. *)
Definition get_cache (pid : Z) : ST Table cache :=
  let* t := get in
  match t_caches t !! pid with
  | Some c => ret c
  | None => crash "invalid memory address or nil pointer dereference"
  end.

Definition put_cache (pid : Z) (c : cache) : ST Table unit :=
  modify (fun t => set_caches (<[pid := c]> (t_caches t)) t).

(** [t.caches[propertyID].add(value, index)]. *)
Definition cache_insert (pid : Z) (value : string) (index : Z) : ST Table unit :=
  let* c := get_cache pid in
  put_cache pid (cache_add c value index).

(** [Table.addFactor]. *)
Definition addFactor (pid : Z) (value : string) : ST Table Z :=
  let* index := txn false (
    let* fd := factor_dbi pid in
    let index := default 0 (fd_seq fd) + 1 in
    let* _ := factor_put pid (fun fd => mkFactorDB (Some index) (fd_fwd fd) (fd_rev fd)) in
    let v := truncateFactor value in
    let* _ := factor_put pid (fun fd => mkFactorDB (fd_seq fd) (<[factorKey v := index]> (fd_fwd fd)) (fd_rev fd)) in
    let* _ := factor_put pid (fun fd => mkFactorDB (fd_seq fd) (fd_fwd fd) (<[index := v]> (fd_rev fd))) in
    ret index) in
  let* _ := cache_insert pid (truncateFactor value) index in
  ret index.

(** [Table.factorize]. *)
Definition factorize (pid : Z) (value : string) (createIfNotExists : bool) : ST Table Z :=
  if bool_decide (value = "") then ret 0 else
  let* c := get_cache pid in
  match cache_getValue c value with
  | Some (sequence, c') => let* _ := put_cache pid c' in ret sequence
  | None =>
      let* data := txn true (let* fd := factor_dbi pid in ret (fd_fwd fd !! factorKey value)) in
      let val := default 0 data in
      if bool_decide (val <> 0) then
        let* _ := cache_insert pid value val in ret val
      else if createIfNotExists then addFactor pid value
      else ret 0
  end.

(** [Table.Factorize]. *)
Definition Factorize (pid : Z) (value : string) : ST Table Z :=
  factorize pid value false.

(** [Table.defactorize]. *)
Definition defactorize (pid : Z) (index : Z) : ST Table string :=
  if bool_decide (index = 0) then ret "" else
  let* c := get_cache pid in
  match cache_getKey c index with
  | Some (key, c') => let* _ := put_cache pid c' in ret key
  | None =>
      let* data := txn true (let* fd := factor_dbi pid in ret (fd_rev fd !! index)) in
      match data with
      | None => fail (ErrFactorNotFound pid index)
      | Some s => let* _ := cache_insert pid s index in ret s
      end
  end.

(** [Table.Defactorize]. *)
Definition Defactorize (pid : Z) (index : Z) : ST Table string :=
  defactorize pid index.

(* ------------------------------------------------------------------ *)
(** ** Table: events *)

Record Event := mkEvent {
  e_Timestamp : Z;
  e_Data : gmap string Value
}.

Record rawEvent := mkRaw {
  r_timestamp : Z;
  r_data : gmap Z Value
}.

(** [Table.shardIndex]: [int(hash.Local(id)) % t.shardCount]. *)
Definition shardIndex (id : string) : ST Table Z :=
  let* t := get in
  if bool_decide (t_shardCount t = 0) then crash "integer divide by zero"
  else ret (Z.rem (hashLocal id) (t_shardCount t)).

(** [rawEvent.unmarshal]: the timestamp from the first eight bytes, the
    data from the body. *)
Definition unmarshal (v : StoredValue) : rawEvent :=
  mkRaw (read_be64 (sv_prefix v)) (fmap promote (sv_data v)).

(** [rawEvent.marshal]. *)
Definition marshal_raw (r : rawEvent) : StoredValue :=
  mkStored (be64 (r_timestamp r)) (r_data r).

(** [Table.toRawEvent]. *)
Definition toRawEvent (e : Event) : ST Table rawEvent :=
  let* data := foldM (fun acc '(k, v) =>
      let* t := get in
      match t_properties t !! k with
      | None => fail (ErrPropertyNotFound k)
      | Some p =>
          let v := Cast p v in
          let* v := if bool_decide (p_DataType p = Factor) then
                      match v with
                      | VString s => let* i := factorize (p_ID p) s true in ret (VInt i)
                      | _ => crash "interface conversion"
                      end
                    else ret v in
          ret (<[p_ID p := v]> acc)
      end) ∅ (map_to_list (e_Data e)) in
  ret (mkRaw (shiftTime (e_Timestamp e)) data).

(** [Table.toEvent]. *)
Definition toEvent (r : rawEvent) : ST Table Event :=
  let* data := foldM (fun acc '(k, v) =>
      let* t := get in
      match t_propertiesByID t !! k with
      | None => ret acc
      | Some p =>
          let v := promote v in
          if bool_decide (p_DataType p = Factor) then
            match v with
            | VInt i => let* s := defactorize (p_ID p) i in ret (<[p_Name p := VString s]> acc)
            | _ => fail ErrInvalidFactorValue
            end
          else ret (<[p_Name p := v]> acc)
      end) ∅ (map_to_list (r_data r)) in
  ret (mkEvent (unshiftTime (r_timestamp r)) data).

(** [Table.getRawEvent]. *)
Definition getRawEvent (id : string) (timestamp : Z) : ST Table (option rawEvent) :=
  if bool_decide (id = "") then fail ErrObjectIDRequired else
  let prefix := be64 timestamp in
  let* i := shardIndex id in
  let* b := txn true (getAt i id prefix) in
  match b with
  | None => ret None
  | Some v => ret (Some (unmarshal v))
  end.

(** [Table.getRawEvents]. *)
Definition getRawEvents (id : string) : ST Table (list rawEvent) :=
  if bool_decide (id = "") then fail ErrObjectIDRequired else
  let* i := shardIndex id in
  let* slices := txn true (getAll i id) in
  match slices with
  | None => ret []
  | Some vs => ret (map unmarshal vs)
  end.

Definition check_open : ST Table unit :=
  let* t := get in
  if opened t then ret tt else fail (ErrTableNotOpen (t_name t)).

(** [Table.GetEvent]. *)
Definition GetEvent (id : string) (timestamp : Z) : ST Table (option Event) :=
  let* _ := check_open in
  let* r := getRawEvent id (shiftTime timestamp) in
  match r with
  | None => ret None
  | Some r => let* ev := toEvent r in ret (Some ev)
  end.

(** [Table.GetEvents]. *)
Definition GetEvents (id : string) : ST Table (list Event) :=
  let* _ := check_open in
  let* rs := getRawEvents id in
  mapM toEvent rs.

(** [Table.insertEvent]: the error of the lookup of the current event is
    dropped ([current, err := ...; if current != nil]). *)
Definition insertEvent (id : string) (e : Event) : ST Table unit :=
  if bool_decide (id = "") then fail ErrObjectIDRequired else
  let* r := toRawEvent e in
  let* current := catch_err (getRawEvent id (r_timestamp r)) in
  let r := match current with
           | Some (Some cur) => mkRaw (r_timestamp r) (r_data r ∪ r_data cur)
           | _ => r
           end in
  let b := marshal_raw r in
  let prefix := be64 (r_timestamp r) in
  let* i := shardIndex id in
  txn false (putAt i id prefix b).

(** [Table.InsertEvent]. *)
Definition InsertEvent (id : string) (e : Event) : ST Table unit :=
  let* _ := check_open in
  insertEvent id e.

(** [Table.DeleteEvent]. *)
Definition DeleteEvent (id : string) (timestamp : Z) : ST Table unit :=
  let* _ := check_open in
  let prefix := be64 (shiftTime timestamp) in
  let* i := shardIndex id in
  txn false (delAt i id prefix).

(* ------------------------------------------------------------------ *)
(** ** Table: schema *)

(** [Table.marshal]: the JSON meta record ([properties] in map order). *)
Definition marshal_meta (t : Table) : Meta :=
  mkMeta (t_name t) (t_shardCount t) (t_maxPermanentID t) (t_maxTransientID t)
    (map snd (map_to_list (t_properties t))).

(** [Table.save]. *)
Definition save : ST Table unit :=
  let* t := get in
  txn false (meta_put (marshal_meta t)).

(** [Table.PropertyByID]. *)
Definition PropertyByID (id : Z) : ST Table (option Property) :=
  let* _ := check_open in
  let* t := get in
  ret (t_propertiesByID t !! id).

(** [Table.Property]. *)
Definition Property_ (name : string) : ST Table (option Property) :=
  let* _ := check_open in
  let* t := get in
  ret (t_properties t !! name).

Definition with_id (id : Z) (p : Property) : Property :=
  mkProperty id (p_Name p) (p_DataType p) (p_Transient p).

(** [Table.CreateProperty].  [copyProperties] copies both maps; with maps
    as values the copy is the map itself. *)
Definition CreateProperty (name : string) (dataType : string) (transient : bool)
  : ST Table Property :=
  let* _ := check_open in
  let* t := get in
  if bool_decide (is_Some (t_properties t !! name)) then fail (ErrPropertyExists name) else
  let p := mkProperty 0 name dataType transient in
  match Validate p with
  | Some e => fail e
  | None =>
      let* id :=
        (if transient then
           let* _ := modify (fun t => set_ids (t_maxPermanentID t) (t_maxTransientID t - 1) t) in
           let* t := get in ret (t_maxTransientID t)
         else
           let* _ := modify (fun t => set_ids (t_maxPermanentID t + 1) (t_maxTransientID t) t) in
           let* t := get in ret (t_maxPermanentID t)) in
      let p := with_id id p in
      let* _ := (if bool_decide (p_DataType p = Factor)
                 then txn false (factor_dbi_create id) else ret tt) in
      let* t := get in
      let properties := t_properties t in
      let propertiesByID := t_propertiesByID t in
      let* _ := modify (set_maps (<[name := p]> properties) (<[id := p]> propertiesByID)) in
      let* _ := catch save (fun e =>
                  let* _ := modify (set_maps properties propertiesByID) in fail e) in
      let* _ := (if bool_decide (p_DataType p = Factor)
                 then modify (fun t => set_caches (<[id := newCache FactorCacheSize]> (t_caches t)) t)
                 else ret tt) in
      ret p
  end.

(** [Table.RenameProperty]: the clone with the new name replaces the entry
    of [t.properties] only; on a failed save only [t.properties] is put
    back ([t.propertiesByID] keeps the copy, which has the same entries). *)
Definition RenameProperty (oldName newName : string) : ST Table Property :=
  let* _ := check_open in
  let* t := get in
  match t_properties t !! oldName with
  | None => fail (ErrPropertyNotFound oldName)
  | Some old =>
      if bool_decide (is_Some (t_properties t !! newName)) then fail (ErrPropertyExists newName) else
      let properties := t_properties t in
      let p := mkProperty (p_ID old) newName (p_DataType old) (p_Transient old) in
      let* _ := modify (fun t => set_maps (<[newName := p]> (delete oldName (t_properties t)))
                                          (t_propertiesByID t) t) in
      let* _ := catch save (fun e =>
                  let* _ := modify (fun t => set_maps properties (t_propertiesByID t) t) in fail e) in
      ret p
  end.

(** [Table.DeleteProperty]. *)
Definition DeleteProperty (name : string) : ST Table unit :=
  let* _ := check_open in
  let* t := get in
  match t_properties t !! name with
  | None => fail (ErrPropertyNotFound name)
  | Some p =>
      let properties := t_properties t in
      let propertiesByID := t_propertiesByID t in
      let* _ := modify (set_maps (delete name properties) (delete (p_ID p) propertiesByID)) in
      catch save (fun e => let* _ := modify (set_maps properties propertiesByID) in fail e)
  end.

(* ------------------------------------------------------------------ *)
(** ** More of the table: batch and whole-object operations *)

(** [transaction.del]: [txn.Del(dbi, key, nil)] drops the key with all
    its duplicates; [MDB_NOTFOUND] is no error.  LMDB refuses a key of
    length zero ([MDB_BAD_VALSIZE]). *)
Definition del (i : Z) (key : string) : ST Env unit :=
  let* dbi := shard_dbi i in
  if bool_decide (key = "") then fail (ErrStorage "del error: MDB_BAD_VALSIZE") else
  match dbi !! key with
  | None => ret tt
  | Some _ =>
      let* env := get in
      if env_full env then fail ErrMapFull else put (set_shard i key [] env)
  end.

(** [Table.DeleteEvents]. *)
Definition DeleteEvents (id : string) : ST Table unit :=
  let* _ := check_open in
  let* i := shardIndex id in
  txn false (del i id).

(** [Table.InsertEvents]: the events one by one, stopping at the first
    error. *)
Definition InsertEvents (id : string) (events : list Event) : ST Table unit :=
  let* _ := check_open in
  foldM (fun _ e => insertEvent id e) tt events.

(** [Table.Properties] and [Table.PropertiesByID]. *)
Definition Properties : ST Table (gmap string Property) :=
  let* _ := check_open in
  let* t := get in
  ret (t_properties t).

Definition PropertiesByID : ST Table (gmap Z Property) :=
  let* _ := check_open in
  let* t := get in
  ret (t_propertiesByID t).

(** The duplicate stored under the eight-byte prefix [p], if any. *)
Definition find_prefix (p : list Z) (l : list StoredValue) : option StoredValue :=
  List.find (fun v => bool_decide (sv_prefix v = p)) l.

(** [Table.unmarshal]: the fields of the meta record, and both property
    maps rebuilt from its [properties] in order (a later entry replaces an
    earlier one under the same key). *)
Definition unmarshal_props (ps : list Property) : gmap string Property * gmap Z Property :=
  fold_left (fun acc p => (<[p_Name p := p]> acc.1, <[p_ID p := p]> acc.2)) ps (∅, ∅).

Definition unmarshal_meta (m : Meta) (t : Table) : Table :=
  let maps := unmarshal_props (m_properties m) in
  mkTable (m_name m) (t_env t) maps.1 maps.2 (t_caches t)
    (m_shardCount m) (m_maxPermanentID m) (m_maxTransientID m).

(** ** encoding/json on the meta record *)

(** [utf8.DecodeRuneInString]: the width of the valid UTF-8 sequence at
    the head of [s] (bytes as numbers), [0] where Go reports [RuneError]
    of width 1 (a byte that starts no sequence, a bad continuation byte, an
    overlong or surrogate form, or a sequence cut short). *)
Definition utf8_seq_len (s : list nat) : nat :=
  match s with
  | [] => 0
  | b0 :: rest =>
      let cont b := ((128 <=? b) && (b <=? 191))%nat in
      let need (n lo hi : nat) :=
        match rest with
        | b1 :: rest1 =>
            if ((lo <=? b1) && (b1 <=? hi))%nat then
              match n, rest1 with
              | 2%nat, _ => 2%nat
              | 3%nat, b2 :: _ => if cont b2 then 3%nat else 0%nat
              | 4%nat, b2 :: b3 :: _ => if cont b2 && cont b3 then 4%nat else 0%nat
              | _, _ => 0%nat
              end
            else 0%nat
        | [] => 0%nat
        end in
      if (b0 <? 128)%nat then 1%nat
      else if ((194 <=? b0) && (b0 <=? 223))%nat then (need 2 128 191)%nat
      else if (b0 =? 224)%nat then (need 3 160 191)%nat
      else if ((225 <=? b0) && (b0 <=? 236))%nat || ((238 <=? b0) && (b0 <=? 239))%nat
        then (need 3 128 191)%nat
      else if (b0 =? 237)%nat then (need 3 128 159)%nat
      else if (b0 =? 240)%nat then (need 4 144 191)%nat
      else if ((241 <=? b0) && (b0 <=? 243))%nat then (need 4 128 191)%nat
      else if (b0 =? 244)%nat then (need 4 128 143)%nat
      else 0%nat
  end.

(** U+FFFD in UTF-8. *)
Definition replacement_char : list ascii :=
  [ascii_of_nat 239; ascii_of_nat 191; ascii_of_nat 189].

(** [encodeState.string] followed by the decoder's unquoting: every valid
    sequence comes back as it was (escapes included), every byte where
    [DecodeRuneInString] reports [RuneError] of width 1 is written as
    the escape [\ufffd] and so comes back as U+FFFD.  [fuel] bounds the steps; each
    consumes at least one byte. *)
Fixpoint json_string_fuel (fuel : nat) (s : list ascii) : list ascii :=
  match fuel with
  | O => s
  | S f =>
      match s with
      | [] => []
      | a :: rest =>
          match utf8_seq_len (map nat_of_ascii s) with
          | O => replacement_char ++ json_string_fuel f rest
          | k => firstn k s ++ json_string_fuel f (skipn k s)
          end
      end
  end.

Definition json_string (s : string) : string :=
  let l := list_ascii_of_string s in
  string_of_list_ascii (json_string_fuel (length l) l).

(** [json.Unmarshal(json.Marshal(p))] for a [Property]: the [id],
    [name], [dataType] and [transient] fields ([table] is unexported). *)
Definition json_property (p : Property) : Property :=
  mkProperty (p_ID p) (json_string (p_Name p)) (json_string (p_DataType p)) (p_Transient p).

(** [json.Unmarshal(json.Marshal(msg))] for a [tableRawMessage]: the
    integers come back exactly, the strings through [json_string]. *)
Definition json_meta (m : Meta) : Meta :=
  mkMeta (json_string (m_name m)) (m_shardCount m) (m_maxPermanentID m) (m_maxTransientID m)
    (map json_property (m_properties m)).

(** [Table.load]: a read-only transaction reading ["meta"]; no value
    leaves the table as it is.  [env_meta] holds the message that [save]
    gave to [json.Marshal]; the stored bytes are its encoding, which
    [t.unmarshal] decodes. *)
Definition load : ST Table unit :=
  let* value := txn true (let* env := get in ret (env_meta env)) in
  match value with
  | None => ret tt
  | Some m => modify (unmarshal_meta (json_meta m))
  end.

(** The table's name and its properties' names and data types are kept
    by the JSON encoding (they are valid UTF-8). *)
Definition json_clean_prop (p : Property) : Prop :=
  json_string (p_Name p) = p_Name p /\ json_string (p_DataType p) = p_DataType p.

Definition json_clean (t : Table) : Prop :=
  json_string (t_name t) = t_name t /\ map_Forall (fun _ p => json_clean_prop p) (t_properties t).

Global Instance json_clean_dec t : Decision (json_clean t).
Proof. unfold json_clean, json_clean_prop. apply _. Defined.

(** A by-name and a by-id property map index the same properties. *)
Definition maps_wf (ps : gmap string Property) (pids : gmap Z Property) : Prop :=
  map_Forall (fun n p => p_Name p = n) ps /\
  map_Forall (fun n p => pids !! p_ID p = Some p) ps /\
  map_Forall (fun i p => ps !! p_Name p = Some p /\ p_ID p = i) pids.

Global Instance maps_wf_dec ps pids : Decision (maps_wf ps pids).
Proof. unfold maps_wf. apply _. Defined.

(** The table's two property maps index the same properties. *)
Definition schema_wf (t : Table) : Prop := maps_wf (t_properties t) (t_propertiesByID t).

Global Instance schema_wf_dec t : Decision (schema_wf t).
Proof. unfold schema_wf. apply _. Defined.

(** The property ids lie between the two counters, which start at [0]:
    permanent ids count up to [maxPermanentID], transient ids down to
    [maxTransientID]. *)
Definition schema_ids_ok (t : Table) : Prop :=
  t_maxTransientID t <= 0 <= t_maxPermanentID t /\
  map_Forall (fun i _ => t_maxTransientID t <= i <= t_maxPermanentID t) (t_propertiesByID t).

Global Instance schema_ids_ok_dec t : Decision (schema_ids_ok t).
Proof. unfold schema_ids_ok. apply _. Defined.

(* ------------------------------------------------------------------ *)
(** ** Tables for the examples *)

(** The state [Table.create] leaves for a new table with [n] shards: the
    environment open, the [meta] and [shards/0 .. shards/n-1] DBIs, the
    initial meta saved, no property. *)
Definition created_table (name : string) (n : nat) (full : bool) : Table :=
  let t := mkTable name None ∅ ∅ ∅ (Z.of_nat n) 0 0 in
  mkTable name
    (Some (mkEnv full (Some (marshal_meta t))
             (list_to_map (map (fun i => (Z.of_nat i, ∅)) (seq 0 n))) ∅))
    ∅ ∅ ∅ (Z.of_nat n) 0 0.

(** [Table.close]: [env = nil]. *)
Definition close (t : Table) : Table :=
  mkTable (t_name t) None (t_properties t) (t_propertiesByID t) (t_caches t)
    (t_shardCount t) (t_maxPermanentID t) (t_maxTransientID t).

(** A one-shard table; the same with a full memory map. *)
Definition tbl : Table := created_table "t" 1 false.
Definition tbl_full : Table := created_table "t" 1 true.

(** [tbl] with the factor property ["bar"] (id 1). *)
Definition tbl_bar : Table := snd (CreateProperty "bar" Factor false tbl).

(** [tbl] with the integer property ["baz"] (id 1). *)
Definition tbl_baz : Table := snd (CreateProperty "baz" Integer false tbl).

(** [strings.Repeat(string(a), n)]. *)
Fixpoint repeat_char (a : ascii) (n : nat) : string :=
  match n with
  | O => EmptyString
  | S n' => String a (repeat_char a n')
  end.

Definition s1 : string := repeat_char "A" 600.
Definition s2 : string := String.append (repeat_char "A" 500) (repeat_char "B" 100).

(** Object ["xyz"] with an empty event at 1969-12-31T23:59:59Z
    (-1000000000 ns), then one at 1970-01-01T00:00:00Z. *)
Definition tbl_pre_epoch : Table :=
  snd (InsertEvent "xyz" (mkEvent 0 ∅)
         (snd (InsertEvent "xyz" (mkEvent (-1000000000) ∅) tbl))).

(* ------------------------------------------------------------------ *)
(** ** Invariants and observations used by the properties *)

(** The data of the raw event stored for [id] at the instant [ts], as
    [getRawEvent(id, shiftTime(ts))] reads it ([∅] if there is none). *)
Definition stored_data (id : string) (ts : Z) (t : Table) : gmap Z Value :=
  match fst (getRawEvent id (shiftTime ts) t) with
  | Ok (Some c) => r_data c
  | _ => ∅
  end.

(** The duplicates of a key as LMDB keeps them: strictly ascending by
    their eight-byte prefixes. *)
Definition dups_sorted (l : list StoredValue) : Prop :=
  StronglySorted (fun a b => bytes_ltb (sv_prefix a) (sv_prefix b) = true) l /\
  Forall (fun v => length (sv_prefix v) = 8%nat) l.

Definition shards_wf (env : Env) : Prop :=
  forall i d key l, env_shards env !! i = Some d -> d !! key = Some l -> dups_sorted l.

Definition table_wf (t : Table) : Prop :=
  match t_env t with Some env => shards_wf env | None => True end.

(** [m] leaves the shard count and the shard DBIs as they were. *)
Definition keep (t t' : Table) : Prop :=
  t_shardCount t' = t_shardCount t /\ fmap env_shards (t_env t') = fmap env_shards (t_env t).

Definition Keeps {A} (m : ST Table A) : Prop := forall t, keep t (snd (m t)).

(** What decoding an event reads of a table: the by-ID property map, the
    factor caches and the factor DBIs. *)
Definition view_eq (t1 t2 : Table) : Prop :=
  t_propertiesByID t1 = t_propertiesByID t2 /\ t_caches t1 = t_caches t2 /\
  fmap env_factors (t_env t1) = fmap env_factors (t_env t2).

Definition Respects {A} (m : ST Table A) : Prop :=
  forall t1 t2, view_eq t1 t2 -> fst (m t1) = fst (m t2) /\ view_eq (snd (m t1)) (snd (m t2)).

(** The same, relating two computations. *)
Definition Respects2 {A} (m1 m2 : ST Table A) : Prop :=
  forall t1 t2, view_eq t1 t2 -> fst (m1 t1) = fst (m2 t2) /\ view_eq (snd (m1 t1)) (snd (m2 t2)).

(** An environment transaction that leaves the shard DBIs alone. *)
Definition EnvKeeps {A} (fn : ST Env A) : Prop :=
  forall env, env_shards (snd (fn env)) = env_shards env.

(** The factor DBI of [pid] in a table, and its sequence value. *)
Definition factor_db_of (pid : Z) (t : Table) : FactorDB :=
  match t_env t with
  | Some env => default emptyFactorDB (env_factors env !! pid)
  | None => emptyFactorDB
  end.

Definition seqno (fd : FactorDB) : Z := default 0 (fd_seq fd).

(** A factor DBI: every index handed out lies in [1 .. seq], and the
    forward and reverse maps are inverse to each other. *)
Definition fdb_ok (fd : FactorDB) : Prop :=
  0 <= seqno fd /\
  (forall s i, fd_fwd fd !! s = Some i -> 1 <= i <= seqno fd /\ fd_rev fd !! i = Some s) /\
  (forall i s, fd_rev fd !! i = Some s -> fd_fwd fd !! s = Some i).

(** A factor cache agrees with the DBI: it holds at least one entry, an
    index at most once, and binds [s] to [i] only if [truncateFactor s]
    has index [i]. *)
Definition cache_ok (fd : FactorDB) (c : cache) : Prop :=
  (1 <= c_size c)%nat /\
  (forall s1 s2 i, In (s1, i) (c_items c) -> In (s2, i) (c_items c) -> s1 = s2) /\
  (forall s i, In (s, i) (c_items c) -> fd_fwd fd !! truncateFactor s = Some i).

Definition factor_inv (pid : Z) (t : Table) : Prop :=
  exists env fd c, t_env t = Some env /\ env_factors env !! pid = Some fd /\
    t_caches t !! pid = Some c /\ fdb_ok fd /\ cache_ok fd c.

(** Inserting [{"baz": "12"}] into [tbl_baz] (["baz"] is an integer). *)
Definition ev_baz : Event := mkEvent 0 {[ "baz" := VString "12" ]}.
Definition tbl_baz_ins : Table := snd (InsertEvent "obj" ev_baz tbl_baz).

(** [tbl_baz] with a second property ["qux"] (a string, id [2]), an event
    of ["obj"] at the epoch holding both, and a second event at the same
    instant holding a new ["qux"] only. *)
Definition tbl_bq : Table := snd (CreateProperty "qux" String_ false tbl_baz).
Definition ev_bq1 : Event := mkEvent 0 {[ "baz" := VInt 7; "qux" := VString "a" ]}.
Definition ev_bq2 : Event := mkEvent 0 {[ "qux" := VString "b" ]}.
Definition tbl_bq1 : Table := snd (InsertEvent "obj" ev_bq1 tbl_bq).
Definition tbl_bq2 : Table := snd (InsertEvent "obj" ev_bq2 tbl_bq1).

(** [tbl_baz] after renaming ["baz"] to ["qux"]. *)
Definition tbl_baz_renamed : Table := snd (RenameProperty "baz" "qux" tbl_baz).

(** [tbl_bar] after factorizing ["x"] for ["bar"]. *)
Definition tbl_bar_x : Table := snd (factorize 1 "x" true tbl_bar).

(** [tbl_baz_ins] after deleting the event of ["obj"] at the epoch. *)
Definition tbl_baz_del : Table := snd (DeleteEvent "obj" 0 tbl_baz_ins).

(** [t] once its memory map has no free page left. *)
Definition fill_map (t : Table) : Table :=
  match t_env t with
  | Some env => set_env (mkEnv true (env_meta env) (env_shards env) (env_factors env)) t
  | None => t
  end.

(** [tbl_baz] on a full memory map. *)
Definition tbl_baz_full : Table := fill_map tbl_baz.

(* ================================================================== *)
(** * Properties *)

(** C4 (code_bug): [1969-12-31T23:59:59.999999Z], one microsecond before
    the epoch, shifts to [-1]; [unshiftTime(-1)] reads the low 20 bits as
    [1048575] microseconds and the seconds as [-1], giving
    [1970-01-01T00:00:00.048575Z]: the round trip fails for pre-epoch
    times with a non-zero microsecond part. *)
Theorem unshift_shift_pre_epoch :
  shiftTime (-1000) = -1 /\ unshiftTime (shiftTime (-1000)) = 48575000.
Proof. split; reflexivity. Qed.

(** C2 (code_bug): the events of an object come back in the byte order of
    their big-endian two's complement timestamps: an event at
    [1970-01-01T00:00:00Z] comes before one at [1969-12-31T23:59:59Z]. *)
Theorem get_events_pre_epoch_order :
  fst (GetEvents "xyz" tbl_pre_epoch) = Ok [mkEvent 0 ∅; mkEvent (-1000000000) ∅].
Proof. vm_compute. reflexivity. Qed.

(** C3 (code_bug): [DeleteEvent] has no empty-id check; [delAt] takes
    [&key[0]] of the empty key and panics, where [GetEvent] returns
    [ErrObjectIDRequired]. *)
Theorem delete_event_empty_id_panics :
  fst (DeleteEvent "" 0 tbl) = Panic key_panic /\
  fst (GetEvent "" 0 tbl) = Err ErrObjectIDRequired.
Proof. split; vm_compute; reflexivity. Qed.

(** C6 (code_bug): the public [Factorize] ([createIfNotExists] false) of a
    string with no factor returns [0] and no error, although the comment
    on [factorize] says it returns an error, and the sibling version in
    [db/table.go] returns [ErrFactorNotFound]. *)
Theorem factorize_miss_no_error :
  fst (Factorize 1 "x" tbl_bar) = Ok 0.
Proof. vm_compute. reflexivity. Qed.

(** C9 (code_bug): [Factorize] and [Defactorize] do not check that the
    table is open: on a closed table they answer [0] and [""] for the
    blank value instead of the [table not open] error. *)
Theorem factor_ops_closed_table :
  fst (Factorize 1 "" (close tbl_bar)) = Ok 0 /\
  fst (Defactorize 1 0 (close tbl_bar)) = Ok "" /\
  fst (GetEvent "xyz" 0 (close tbl_bar)) = Err (ErrTableNotOpen "t").
Proof. vm_compute. repeat split. Qed.

(** C8 (code_bug): when saving the meta fails, [CreateProperty] puts the
    property maps back but keeps the incremented [maxPermanentID]. *)
Theorem create_property_failed_save_counter :
  let '(o, t') := CreateProperty "p" Integer false tbl_full in
  o = Err ErrMapFull /\
  t_properties t' = t_properties tbl_full /\
  t_propertiesByID t' = t_propertiesByID tbl_full /\
  t_maxPermanentID t' = t_maxPermanentID tbl_full + 1.
Proof. vm_compute. repeat split. Qed.

(** C7 (code_bug, against the cache modelled from the spec): [s1] gets
    index 1 and [s2] finds index 1 through the truncated key, but the
    fetch hit caches [s2] itself (untruncated) under index 1, so
    [defactorize 1] then returns the 600-byte [s2]. *)
Theorem factor_truncation_collision :
  let '(o1, t1) := factorize 1 s1 true tbl_bar in
  let '(o2, t2) := factorize 1 s2 true t1 in
  let '(o3, _) := defactorize 1 1 t2 in
  o1 = Ok 1 /\ o2 = Ok 1 /\ o3 = Ok s2 /\ String.length s2 = 600%nat.
Proof. vm_compute. repeat split. Qed.

(* ------------------------------------------------------------------ *)
(** ** Decoding depends only on the by-ID map, the caches and the factor
    DBIs *)

Lemma Respects_of2 {A} (m : ST Table A) : Respects2 m m -> Respects m.
Proof. exact id. Qed.

Lemma Respects2_bind {A B} (m1 m2 : ST Table A) (k1 k2 : A -> ST Table B) :
  Respects2 m1 m2 -> (forall a, Respects2 (k1 a) (k2 a)) -> Respects2 (bind m1 k1) (bind m2 k2).
Proof.
  intros Hm Hk t1 t2 H. unfold bind.
  destruct (Hm t1 t2 H) as [Ho Hv].
  destruct (m1 t1) as [o1 s1], (m2 t2) as [o2 s2]; simpl in *; subst o2.
  destruct o1; simpl; [apply Hk; exact Hv|auto|auto].
Qed.

Lemma Respects2_ret {A} (a : A) : Respects2 (ret a) (ret a).
Proof. intros t1 t2 H; simpl; auto. Qed.

Lemma Respects2_fail {A} (e : Error) : Respects2 (@fail _ A e) (fail e).
Proof. intros t1 t2 H; simpl; auto. Qed.

Lemma Respects2_get {A} (k : Table -> ST Table A) :
  (forall t1 t2, view_eq t1 t2 -> Respects2 (k t1) (k t2)) -> Respects2 (bind get k) (bind get k).
Proof. intros Hk t1 t2 H. apply (Hk t1 t2 H _ _ H). Qed.

Lemma Respects2_get_cache pid : Respects2 (get_cache pid) (get_cache pid).
Proof.
  apply Respects2_get. intros t1 t2 (Hb & Hc & He). rewrite Hc.
  destruct (t_caches t2 !! pid); intros s1 s2 H; simpl; auto.
Qed.

Lemma Respects2_put_cache pid c : Respects2 (put_cache pid c) (put_cache pid c).
Proof.
  intros t1 t2 (Hb & Hc & He); simpl. split; [reflexivity|].
  unfold view_eq, set_caches; simpl. rewrite Hc. auto.
Qed.

Lemma Respects2_cache_insert pid s i : Respects2 (cache_insert pid s i) (cache_insert pid s i).
Proof.
  apply Respects2_bind; [apply Respects2_get_cache|]. intros c. apply Respects2_put_cache.
Qed.

Lemma Respects2_read_factor {A} pid (f : FactorDB -> A) :
  Respects2 (txn true (let* fd := factor_dbi pid in ret (f fd)))
            (txn true (let* fd := factor_dbi pid in ret (f fd))).
Proof.
  intros t1 t2 H. pose proof H as (Hb & Hc & He). unfold txn.
  destruct (t_env t1) as [e1|], (t_env t2) as [e2|]; simpl in He; try discriminate.
  - injection He as He. unfold factor_dbi, bind, get, ret, fail; cbn. rewrite He.
    destruct (env_factors e2 !! pid); simpl; auto.
  - simpl; auto.
Qed.

Lemma Respects2_defactorize pid i : Respects2 (defactorize pid i) (defactorize pid i).
Proof.
  unfold defactorize. destruct (bool_decide (i = 0)); [apply Respects2_ret|].
  apply Respects2_bind; [apply Respects2_get_cache|]. intros c.
  destruct (cache_getKey c i) as [[key c']|].
  - apply Respects2_bind; [apply Respects2_put_cache|]. intros _. apply Respects2_ret.
  - apply Respects2_bind; [apply Respects2_read_factor|]. intros [s|].
    + apply Respects2_bind; [apply Respects2_cache_insert|]. intros _. apply Respects2_ret.
    + apply Respects2_fail.
Qed.

Lemma Respects2_foldM {A B} (f : B -> A -> ST Table B) :
  (forall acc x, Respects2 (f acc x) (f acc x)) ->
  forall l acc, Respects2 (foldM f acc l) (foldM f acc l).
Proof.
  intros Hf l. induction l as [|x l IH]; intros acc; simpl.
  - apply Respects2_ret.
  - apply Respects2_bind; auto.
Qed.

Lemma toEvent_respects r : Respects (toEvent r).
Proof.
  apply Respects_of2. unfold toEvent. apply Respects2_bind; [|intros; apply Respects2_ret].
  apply Respects2_foldM. intros acc [k v]. apply Respects2_get.
  intros t1 t2 H. pose proof H as (Hb & _ & _). rewrite Hb.
  destruct (t_propertiesByID t2 !! k) as [p|]; [|apply Respects2_ret].
  destruct (bool_decide (p_DataType p = Factor)); [|apply Respects2_ret].
  destruct (promote v); try apply Respects2_fail.
  apply Respects2_bind; [apply Respects2_defactorize|]. intros; apply Respects2_ret.
Qed.

Lemma rename_property_run old new t p t' :
  RenameProperty old new t = (Ok p, t') ->
  view_eq t t' /\ opened t' = true /\
  exists q, t_properties t !! old = Some q /\
    p = mkProperty (p_ID q) new (p_DataType q) (p_Transient q).
Proof.
  destruct t as [nm [env|] ps pids cs sc mp mt]; [|discriminate].
  unfold RenameProperty, check_open, catch, save, txn, meta_put, bind, get, put, ret, fail, modify, set_maps, set_env; cbn.
  destruct (ps !! old) as [q|] eqn:Hq; [|discriminate].
  destruct (bool_decide (is_Some (ps !! new))); [discriminate|]. cbn.
  destruct (env_full env); [discriminate|]. cbn.
  intros H; injection H as <- <-.
  split; [unfold view_eq; cbn; auto|]. split; [reflexivity|]. eauto.
Qed.

(** C10: a successful [RenameProperty old new] replaces the entry of the
    by-name map only: the by-ID map is the same map as before, so
    [PropertyByID] still answers the property under its old name, and
    [toEvent] decodes every raw event exactly as before the rename, keying
    its values under the old name. *)
Theorem rename_property_keeps_by_id old new t p t' q :
  RenameProperty old new t = (Ok p, t') ->
  t_properties t !! old = Some q ->
  t_propertiesByID t !! p_ID q = Some q ->
  p_Name q = old ->
  p_ID p = p_ID q /\ p_Name p = new /\
  t_propertiesByID t' = t_propertiesByID t /\
  fst (PropertyByID (p_ID q) t') = Ok (Some q) /\
  (forall r, fst (toEvent r t') = fst (toEvent r t)) /\
  (p_DataType q <> Factor -> forall ts v,
     fst (toEvent (mkRaw ts {[p_ID q := v]}) t') = Ok (mkEvent (unshiftTime ts) {[old := v]})).
Proof.
  intros Hrun Hq Hid Hname.
  destruct (rename_property_run _ _ _ _ _ Hrun) as (Hv & Hopen & q' & Hq' & ->).
  rewrite Hq in Hq'. injection Hq' as <-.
  pose proof Hv as (Hb & _ & _).
  split; [reflexivity|]. split; [reflexivity|]. split; [congruence|].
  split.
  { unfold PropertyByID, check_open, bind, get, ret. cbn.
    rewrite Hopen. cbn. rewrite <- Hb. rewrite Hid. reflexivity. }
  split.
  { intros r. symmetry. apply (toEvent_respects r t t' Hv). }
  intros Hdt ts v. unfold toEvent; cbn [r_data r_timestamp]. rewrite map_to_list_singleton.
  cbn [foldM]; unfold bind, get, ret; cbn. rewrite <- Hb, Hid. cbn.
  rewrite bool_decide_false by exact Hdt. cbn. rewrite Hname. reflexivity.
Qed.

Lemma rename_property_keeps_by_id_witness :
  RenameProperty "baz" "qux" tbl_baz = (Ok (mkProperty 1 "qux" Integer false), tbl_baz_renamed) /\
  t_properties tbl_baz !! "baz" = Some (mkProperty 1 "baz" Integer false) /\
  t_propertiesByID tbl_baz !! 1 = Some (mkProperty 1 "baz" Integer false) /\
  p_Name (mkProperty 1 "baz" Integer false) = "baz" /\
  fst (PropertyByID 1 tbl_baz_renamed) = Ok (Some (mkProperty 1 "baz" Integer false)).
Proof.
  assert (Hrun : RenameProperty "baz" "qux" tbl_baz
                 = (Ok (mkProperty 1 "qux" Integer false), tbl_baz_renamed))
    by (vm_compute; reflexivity).
  assert (Hq : t_properties tbl_baz !! "baz" = Some (mkProperty 1 "baz" Integer false))
    by (vm_compute; reflexivity).
  assert (Hid : t_propertiesByID tbl_baz !! 1 = Some (mkProperty 1 "baz" Integer false))
    by (vm_compute; reflexivity).
  split; [exact Hrun|]. split; [exact Hq|]. split; [exact Hid|]. split; [reflexivity|].
  exact (proj1 (proj2 (proj2 (proj2
           (rename_property_keeps_by_id "baz" "qux" tbl_baz _ _ _ Hrun Hq Hid eq_refl))))).
Defined.

(* ------------------------------------------------------------------ *)
(** ** The eight-byte timestamp prefix *)

Lemma wrap64_mod z : wrap64 z mod 2 ^ 64 = z mod 2 ^ 64.
Proof.
  unfold wrap64. pose proof (Z.mod_pos_bound z (2 ^ 64) ltac:(lia)).
  destruct (z mod 2 ^ 64 <? 2 ^ 63) eqn:E.
  - apply Z.mod_small; lia.
  - rewrite Zminus_mod, Z_mod_same_full, Z.sub_0_r, Z.mod_mod by lia.
    apply Z.mod_mod; lia.
Qed.

Lemma wrap64_idem z : wrap64 (wrap64 z) = wrap64 z.
Proof. unfold wrap64 at 1. rewrite wrap64_mod. reflexivity. Qed.

Lemma div_step u e :
  0 <= e -> u / 2 ^ e = u / 2 ^ (e + 8) * 256 + (u / 2 ^ e) mod 256.
Proof.
  intros He.
  assert (E : u / 2 ^ (e + 8) = u / 2 ^ e / 256).
  { rewrite Z.div_div by lia. rewrite Z.pow_add_r by lia. reflexivity. }
  rewrite E. pose proof (Z.div_mod (u / 2 ^ e) 256 ltac:(lia)). lia.
Qed.

Lemma horner_be64 u :
  0 <= u < 2 ^ 64 ->
  fold_left (fun acc x => acc * 256 + x)
    (map (fun k => Z.land (Z.shiftr u (8 * k)) 255) [7; 6; 5; 4; 3; 2; 1; 0]) 0 = u.
Proof.
  intros Hu.
  pose proof (div_step u 0 ltac:(lia)) as H0.
  pose proof (div_step u 8 ltac:(lia)) as H1.
  pose proof (div_step u 16 ltac:(lia)) as H2.
  pose proof (div_step u 24 ltac:(lia)) as H3.
  pose proof (div_step u 32 ltac:(lia)) as H4.
  pose proof (div_step u 40 ltac:(lia)) as H5.
  pose proof (div_step u 48 ltac:(lia)) as H6.
  assert (H7 : (u / 2 ^ 56) mod 256 = u / 2 ^ 56).
  { apply Z.mod_small. split; [apply Z.div_pos; lia|].
    apply Z.div_lt_upper_bound; lia. }
  change 255 with (Z.ones 8). cbn [map fold_left].
  rewrite !Z.shiftr_div_pow2, !Z.land_ones by lia.
  change (8 * 7) with 56 in *. change (8 * 6) with 48 in *. change (8 * 5) with 40 in *.
  change (8 * 4) with 32 in *. change (8 * 3) with 24 in *. change (8 * 2) with 16 in *.
  change (8 * 1) with 8 in *. change (8 * 0) with 0 in *.
  change (0 + 8) with 8 in *. change (8 + 8) with 16 in *. change (16 + 8) with 24 in *.
  change (24 + 8) with 32 in *. change (32 + 8) with 40 in *. change (40 + 8) with 48 in *.
  change (48 + 8) with 56 in *. change (2 ^ 8) with 256.
  change (2 ^ 0) with 1 in *. rewrite Z.div_1_r in *.
  set (a1 := u / 2 ^ 8) in *. set (a2 := u / 2 ^ 16) in *. set (a3 := u / 2 ^ 24) in *.
  set (a4 := u / 2 ^ 32) in *. set (a5 := u / 2 ^ 40) in *. set (a6 := u / 2 ^ 48) in *.
  set (a7 := u / 2 ^ 56) in *. change (u / 256) with a1. clearbody a1 a2 a3 a4 a5 a6 a7. lia.
Qed.

Lemma read_be64_be64 v : read_be64 (be64 v) = wrap64 v.
Proof.
  unfold read_be64, be64.
  rewrite horner_be64 by (apply Z.mod_pos_bound; lia).
  unfold wrap64. rewrite Z.mod_mod by lia. reflexivity.
Qed.

Lemma be64_length v : length (be64 v) = 8%nat.
Proof. reflexivity. Qed.

Lemma shiftTime_wrap ts : wrap64 (shiftTime ts) = shiftTime ts.
Proof. unfold shiftTime. apply wrap64_idem. Qed.

(* ------------------------------------------------------------------ *)
(** ** LMDB's duplicate order *)

Lemma bytes_ltb_irrefl a : bytes_ltb a a = false.
Proof.
  induction a as [|x a IH]; simpl; [reflexivity|].
  rewrite Z.ltb_irrefl, Z.eqb_refl, IH. reflexivity.
Qed.

Lemma bytes_ltb_trans a b c :
  bytes_ltb a b = true -> bytes_ltb b c = true -> bytes_ltb a c = true.
Proof.
  revert b c. induction a as [|x a IH]; intros [|y b] [|z c]; simpl; try easy.
  rewrite !orb_true_iff, !andb_true_iff, !Z.ltb_lt, !Z.eqb_eq.
  intros [Hxy|[-> Hab]] [Hyz|[<- Hbc]]; eauto with lia.
Qed.

Lemma bytes_leb_ne a b : bytes_ltb a b = false -> b <> a -> bytes_leb a b = false.
Proof.
  intros H Hne. unfold bytes_leb. rewrite H, bool_decide_false by congruence. reflexivity.
Qed.

Lemma has_prefix_eq v p :
  length (sv_prefix v) = 8%nat -> length p = 8%nat ->
  has_prefix v p = true -> sv_prefix v = p.
Proof.
  intros Hv Hp. unfold has_prefix. rewrite Hp, bool_decide_eq_true.
  rewrite <- Hv, firstn_all. auto.
Qed.

(** After [delAt]'s cursor step on sorted duplicates, none is left with
    the prefix [p]. *)
Lemma del_located_clears p dups :
  dups_sorted dups -> length p = 8%nat ->
  forall w, In w (match get_both_range p dups with
                  | Some v => if has_prefix v p then remove_first v dups else dups
                  | None => dups
                  end) -> sv_prefix w <> p.
Proof.
  intros [Hs Hl] Hp. induction Hs as [|w0 l Hs IH Hall]; [simpl; tauto|].
  inversion Hl as [|? ? Hw0 Hl']; subst.
  rewrite List.Forall_forall in Hall.
  unfold get_both_range in *. cbn [List.find].
  destruct (bytes_leb p (sv_prefix w0)) eqn:Hle.
  - destruct (has_prefix w0 p) eqn:Hhp.
    + apply has_prefix_eq in Hhp; auto.
      cbn [remove_first]. rewrite bool_decide_true by reflexivity.
      intros w Hw Heq. specialize (Hall w Hw). rewrite Hhp, Heq in Hall.
      rewrite bytes_ltb_irrefl in Hall. discriminate.
    + assert (Hlt : bytes_ltb p (sv_prefix w0) = true).
      { unfold bytes_leb in Hle. apply orb_true_iff in Hle as [Hle|Hle]; [exact Hle|].
        apply bool_decide_eq_true in Hle. unfold has_prefix in Hhp.
        rewrite <- Hle, firstn_all, bool_decide_true in Hhp by reflexivity.
        discriminate. }
      intros w [<-|Hw] Heq.
      * rewrite Heq, bytes_ltb_irrefl in Hlt. discriminate.
      * specialize (Hall w Hw). rewrite Heq in Hall.
        pose proof (bytes_ltb_trans _ _ _ Hlt Hall). rewrite bytes_ltb_irrefl in H. discriminate.
  - assert (Hne : sv_prefix w0 <> p).
    { intros Heq. unfold bytes_leb in Hle. rewrite Heq, bool_decide_true in Hle by reflexivity.
      rewrite orb_true_r in Hle. discriminate. }
    specialize (IH Hl').
    destruct (List.find (fun v => bytes_leb p (sv_prefix v)) l) as [v|] eqn:Hf.
    + destruct (has_prefix v p) eqn:Hhp.
      * cbn [remove_first].
        destruct (bool_decide (w0 = v)) eqn:Hwv.
        -- apply bool_decide_eq_true in Hwv. subst v.
           exfalso; apply Hne; apply has_prefix_eq; auto.
        -- intros w [<-|Hw]; auto.
      * intros w [<-|Hw]; auto.
    + intros w [<-|Hw]; auto.
Qed.

Lemma find_dup_insert p v l :
  sv_prefix v = p -> (forall w, In w l -> sv_prefix w <> p) ->
  get_both_range p (dup_insert v l) = Some v.
Proof.
  intros Hv. unfold get_both_range. induction l as [|w l IH]; intros Hl; cbn.
  - unfold bytes_leb. rewrite Hv, bool_decide_true, orb_true_r by reflexivity. reflexivity.
  - destruct (bytes_ltb (sv_prefix v) (sv_prefix w)) eqn:Hlt; cbn.
    + unfold bytes_leb. rewrite Hv, bool_decide_true, orb_true_r by reflexivity. reflexivity.
    + rewrite Hv in Hlt. rewrite bytes_leb_ne by (auto; apply Hl; left; reflexivity).
      apply IH. intros w' Hw'. apply Hl. right. exact Hw'.
Qed.

Lemma set_shard_lookup i key dups env :
  exists d', env_shards (set_shard i key dups env) !! i = Some d' /\
    default [] (d' !! key) = dups.
Proof.
  unfold set_shard; cbn. eexists; split; [apply lookup_insert_eq|].
  destruct dups; [rewrite lookup_delete_eq|rewrite lookup_insert_eq]; reflexivity.
Qed.

Lemma delAt_clears i key p env env1 d :
  env_shards env !! i = Some d -> (forall l, d !! key = Some l -> dups_sorted l) ->
  length p = 8%nat -> key <> "" ->
  delAt i key p env = (Ok tt, env1) ->
  exists d1, env_shards env1 !! i = Some d1 /\
    forall w, In w (default [] (d1 !! key)) -> sv_prefix w <> p.
Proof.
  intros Hd Hs Hp Hk. unfold delAt, shard_dbi, bind, get, put, ret, fail, crash; cbn.
  rewrite Hd; cbn. rewrite bool_decide_false by exact Hk.
  destruct (d !! key) as [dups|] eqn:Hdk.
  - pose proof (del_located_clears p dups (Hs dups eq_refl) Hp) as Hcl.
    destruct (get_both_range p dups) as [w|] eqn:Hg.
    + destruct (has_prefix w p) eqn:Hh.
      * destruct (env_full env); [discriminate|].
        intros H; injection H as <-.
        destruct (set_shard_lookup i key (remove_first w dups) env) as (d' & Hd' & Hk').
        exists d'. split; [exact Hd'|]. rewrite Hk'. exact Hcl.
      * intros H; injection H as <-. exists d. split; [exact Hd|]. rewrite Hdk. exact Hcl.
    + intros H; injection H as <-. exists d. split; [exact Hd|]. rewrite Hdk. exact Hcl.
  - intros H; injection H as <-. exists d. split; [exact Hd|]. rewrite Hdk. cbn. tauto.
Qed.

Lemma put_dup_getAt i key p v env1 env' d1 :
  env_shards env1 !! i = Some d1 ->
  (forall w, In w (default [] (d1 !! key)) -> sv_prefix w <> p) ->
  sv_prefix v = p -> length p = 8%nat -> key <> "" ->
  put_dup i key v env1 = (Ok tt, env') ->
  getAt i key p env' = (Ok (Some v), env').
Proof.
  intros Hd1 Hcl Hv Hp Hk. unfold put_dup, shard_dbi, bind, get, put, ret, fail; cbn.
  rewrite Hd1; cbn. destruct (env_full env1); [discriminate|].
  destruct (bool_decide (v ∈ default [] (d1 !! key))); [discriminate|].
  intros H; injection H as <-.
  destruct (set_shard_lookup i key (dup_insert v (default [] (d1 !! key))) env1) as (d' & Hd' & Hk').
  unfold getAt, shard_dbi, bind, get, ret, crash; cbn -[set_shard].
  rewrite Hd'; cbn -[set_shard]. rewrite bool_decide_false by exact Hk.
  destruct (d' !! key) as [l|] eqn:Hl.
  - cbn in Hk'. subst l. rewrite find_dup_insert by auto.
    unfold has_prefix. rewrite Hv, firstn_all, bool_decide_true by reflexivity. reflexivity.
  - cbn in Hk'. destruct (default [] (d1 !! key)) as [|w l]; cbn in Hk'; [discriminate|]. destruct (bytes_ltb _ _); discriminate.
Qed.

Lemma putAt_getAt i key p v env env' :
  (forall d l, env_shards env !! i = Some d -> d !! key = Some l -> dups_sorted l) ->
  length p = 8%nat -> sv_prefix v = p -> key <> "" ->
  putAt i key p v env = (Ok tt, env') ->
  getAt i key p env' = (Ok (Some v), env').
Proof.
  intros Hs Hp Hv Hk. unfold putAt, bind at 1.
  destruct (delAt i key p env) as [[[]|e|msg] env1] eqn:Hdel; try discriminate.
  destruct (env_shards env !! i) as [d|] eqn:Hd.
  - destruct (delAt_clears i key p env env1 d Hd (fun l => Hs d l eq_refl) Hp Hk Hdel) as (d1 & Hd1 & Hcl).
    apply (put_dup_getAt i key p v env1 env' d1); auto.
  - unfold delAt, shard_dbi, bind, get, fail in Hdel. cbn in Hdel. rewrite Hd in Hdel. discriminate.
Qed.

(* ------------------------------------------------------------------ *)
(** ** Encoding an event leaves the shards alone *)

Lemma keep_refl t : keep t t.
Proof. split; reflexivity. Qed.

Lemma keep_trans t1 t2 t3 : keep t1 t2 -> keep t2 t3 -> keep t1 t3.
Proof. intros [H1 H2] [H3 H4]. split; congruence. Qed.

Lemma Keeps_bind {A B} (m : ST Table A) (k : A -> ST Table B) :
  Keeps m -> (forall a, Keeps (k a)) -> Keeps (bind m k).
Proof.
  intros Hm Hk t. unfold bind. specialize (Hm t).
  destruct (m t) as [[a|e|msg] s]; simpl in *; auto.
  eapply keep_trans; [exact Hm|apply Hk].
Qed.

Lemma Keeps_ret {A} (a : A) : Keeps (ret a).
Proof. intros t; apply keep_refl. Qed.

Lemma Keeps_fail {A} e : Keeps (@fail _ A e).
Proof. intros t; apply keep_refl. Qed.

Lemma Keeps_crash {A} msg : Keeps (@crash _ A msg).
Proof. intros t; apply keep_refl. Qed.

Lemma Keeps_get {A} (k : Table -> ST Table A) : (forall t, Keeps (k t)) -> Keeps (bind get k).
Proof. intros Hk t. apply Hk. Qed.

Lemma Keeps_get_cache pid : Keeps (get_cache pid).
Proof.
  apply Keeps_get. intros t. destruct (t_caches t !! pid); [apply Keeps_ret|apply Keeps_crash].
Qed.

Lemma Keeps_put_cache pid c : Keeps (put_cache pid c).
Proof. intros t. split; reflexivity. Qed.

Lemma Keeps_cache_insert pid s i : Keeps (cache_insert pid s i).
Proof. apply Keeps_bind; [apply Keeps_get_cache|intros; apply Keeps_put_cache]. Qed.

Lemma Keeps_txn {A} ro (fn : ST Env A) : EnvKeeps fn -> Keeps (txn ro fn).
Proof.
  intros Hfn t. unfold txn. destruct (t_env t) as [env|] eqn:He; [|apply keep_refl].
  specialize (Hfn env). destruct (fn env) as [[a|e|msg] env']; try apply keep_refl.
  destruct ro; [apply keep_refl|]. split; [reflexivity|]. cbn. rewrite He. cbn in *. congruence.
Qed.

Lemma EnvKeeps_bind {A B} (m : ST Env A) (k : A -> ST Env B) :
  EnvKeeps m -> (forall a, EnvKeeps (k a)) -> EnvKeeps (bind m k).
Proof.
  intros Hm Hk env. unfold bind. specialize (Hm env).
  destruct (m env) as [[a|e|msg] s]; simpl in *; auto. rewrite Hk. exact Hm.
Qed.

Lemma EnvKeeps_ret {A} (a : A) : EnvKeeps (ret a).
Proof. intros env; reflexivity. Qed.

Lemma EnvKeeps_factor_dbi pid : EnvKeeps (factor_dbi pid).
Proof.
  intros env. unfold factor_dbi, bind, get, ret, fail; cbn.
  destruct (env_factors env !! pid); reflexivity.
Qed.

Lemma EnvKeeps_factor_put pid f : EnvKeeps (factor_put pid f).
Proof.
  intros env. unfold factor_put, factor_dbi, bind, get, put, ret, fail; cbn.
  destruct (env_factors env !! pid); cbn; [|reflexivity].
  destruct (env_full env); reflexivity.
Qed.

Lemma Keeps_addFactor pid value : Keeps (addFactor pid value).
Proof.
  unfold addFactor. apply Keeps_bind.
  - apply Keeps_txn. apply EnvKeeps_bind; [apply EnvKeeps_factor_dbi|]. intros fd.
    repeat (apply EnvKeeps_bind; [apply EnvKeeps_factor_put|intros _]). apply EnvKeeps_ret.
  - intros i. apply Keeps_bind; [apply Keeps_cache_insert|intros; apply Keeps_ret].
Qed.

Lemma Keeps_read_factor {A} pid (f : FactorDB -> A) :
  Keeps (txn true (let* fd := factor_dbi pid in ret (f fd))).
Proof.
  apply Keeps_txn. apply EnvKeeps_bind; [apply EnvKeeps_factor_dbi|intros; apply EnvKeeps_ret].
Qed.

Lemma Keeps_factorize pid value c : Keeps (factorize pid value c).
Proof.
  unfold factorize. destruct (bool_decide (value = "")); [apply Keeps_ret|].
  apply Keeps_bind; [apply Keeps_get_cache|]. intros ca.
  destruct (cache_getValue ca value) as [[sq c']|].
  - apply Keeps_bind; [apply Keeps_put_cache|intros; apply Keeps_ret].
  - apply Keeps_bind; [apply Keeps_read_factor|]. intros data.
    destruct (bool_decide (default 0 data <> 0)).
    + apply Keeps_bind; [apply Keeps_cache_insert|intros; apply Keeps_ret].
    + destruct c; [apply Keeps_addFactor|apply Keeps_ret].
Qed.

Lemma Keeps_foldM {A B} (f : B -> A -> ST Table B) :
  (forall acc x, Keeps (f acc x)) -> forall l acc, Keeps (foldM f acc l).
Proof.
  intros Hf l. induction l as [|x l IH]; intros acc; simpl; [apply Keeps_ret|].
  apply Keeps_bind; auto.
Qed.

Lemma Keeps_toRawEvent e : Keeps (toRawEvent e).
Proof.
  unfold toRawEvent. apply Keeps_bind; [|intros; apply Keeps_ret].
  apply Keeps_foldM. intros acc [k v]. apply Keeps_get. intros t.
  destruct (t_properties t !! k) as [p|]; [|apply Keeps_fail].
  apply Keeps_bind; [|intros; apply Keeps_ret].
  destruct (bool_decide (p_DataType p = Factor)); [|apply Keeps_ret].
  destruct (Cast p v); try apply Keeps_crash.
  apply Keeps_bind; [apply Keeps_factorize|intros; apply Keeps_ret].
Qed.

Lemma toRawEvent_timestamp e t r t1 :
  toRawEvent e t = (Ok r, t1) -> r_timestamp r = shiftTime (e_Timestamp e).
Proof.
  unfold toRawEvent, bind at 1.
  destruct (foldM _ _ _ t) as [[a|err|msg] s]; try discriminate.
  unfold ret. intros H; injection H as <- _. reflexivity.
Qed.

(* ------------------------------------------------------------------ *)
(** ** Running [InsertEvent] and [GetEvent] *)

Lemma bind_ok {S A B} (m : ST S A) (k : A -> ST S B) s a s' :
  m s = (Ok a, s') -> bind m k s = k a s'.
Proof. intros H. unfold bind. rewrite H. reflexivity. Qed.

Lemma bind_ok_inv {S A B} (m : ST S A) (k : A -> ST S B) s b s' :
  bind m k s = (Ok b, s') -> exists a s1, m s = (Ok a, s1) /\ k a s1 = (Ok b, s').
Proof.
  unfold bind. destruct (m s) as [[a|e|msg] s1]; try discriminate. eauto.
Qed.

Lemma check_open_run t : opened t = true -> check_open t = (Ok tt, t).
Proof. intros H. unfold check_open, bind, get. cbn. rewrite H. reflexivity. Qed.

Lemma check_open_inv t t1 u : check_open t = (Ok u, t1) -> t1 = t /\ opened t = true.
Proof.
  unfold check_open, bind, get. cbn. destruct (opened t); [|discriminate].
  intros H; injection H as _ <-. auto.
Qed.

Lemma shardIndex_inv id t i t1 :
  shardIndex id t = (Ok i, t1) ->
  t1 = t /\ t_shardCount t <> 0 /\ i = Z.rem (hashLocal id) (t_shardCount t).
Proof.
  unfold shardIndex, bind, get. cbn.
  destruct (bool_decide (t_shardCount t = 0)) eqn:E; [discriminate|].
  apply bool_decide_eq_false in E. intros H; injection H as <- <-. auto.
Qed.

Lemma shardIndex_run id t :
  t_shardCount t <> 0 -> shardIndex id t = (Ok (Z.rem (hashLocal id) (t_shardCount t)), t).
Proof.
  intros H. unfold shardIndex, bind, get. cbn. rewrite bool_decide_false by exact H. reflexivity.
Qed.

Lemma txn_inv {A} ro (fn : ST Env A) t a t' :
  txn ro fn t = (Ok a, t') ->
  exists env env', t_env t = Some env /\ fn env = (Ok a, env') /\
    t' = if ro then t else set_env env' t.
Proof.
  unfold txn. destruct (t_env t) as [env|]; [|discriminate].
  destruct (fn env) as [[b|e|msg] env'] eqn:E; try discriminate.
  intros H; injection H as <- <-. eauto.
Qed.

Lemma getRawEvent_state id ts t : snd (getRawEvent id ts t) = t.
Proof.
  unfold getRawEvent. destruct (bool_decide (id = "")); [reflexivity|].
  unfold shardIndex, bind, get, ret, crash. cbn.
  destruct (bool_decide (t_shardCount t = 0)); [reflexivity|]. cbn.
  unfold txn. destruct (t_env t) as [env|]; [|reflexivity].
  destruct (getAt _ id _ env) as [[[v|]|e|msg] env']; reflexivity.
Qed.

Lemma getRawEvent_keep id ts t1 t2 :
  keep t1 t2 -> fst (getRawEvent id ts t2) = fst (getRawEvent id ts t1).
Proof.
  intros [Hsc He]. unfold getRawEvent. destruct (bool_decide (id = "")); [reflexivity|].
  unfold shardIndex, bind, get, ret, crash. cbn. rewrite Hsc.
  destruct (bool_decide (t_shardCount t1 = 0)); [reflexivity|]. cbn.
  unfold txn. destruct (t_env t1) as [e1|], (t_env t2) as [e2|]; cbn in He; try discriminate;
    [|reflexivity].
  injection He as He.
  assert (Hg : forall i p, fst (getAt i id p e2) = fst (getAt i id p e1)).
  { intros i p. unfold getAt, shard_dbi, bind, get, ret, fail, crash. cbn. rewrite He.
    destruct (env_shards e1 !! i); cbn; [|reflexivity].
    destruct (bool_decide (id = "")); cbn; [reflexivity|].
    repeat case_match; reflexivity. }
  specialize (Hg (Z.rem (hashLocal id) (t_shardCount t1)) (be64 ts)).
  destruct (getAt _ id _ e2) as [o2 s2], (getAt _ id _ e1) as [o1 s1].
  cbn in Hg. subst o2. destruct o1 as [[v|]|e|msg]; reflexivity.
Qed.

Lemma unmarshal_marshal ts data :
  unmarshal (marshal_raw (mkRaw (shiftTime ts) data)) = mkRaw (shiftTime ts) data.
Proof.
  unfold unmarshal, marshal_raw. cbn [sv_prefix sv_data r_timestamp r_data]. rewrite read_be64_be64, shiftTime_wrap.
  f_equal. apply map_fmap_id.
Qed.

(** C1 (corrected): after a successful [InsertEvent id e], [GetEvent id
    e.Timestamp] decodes ([toEvent]) the raw event whose data is the data
    [toRawEvent e] produced (the values of [e.Data] cast to their
    properties' types and factorized, keyed by property ID) merged over the
    raw data stored before the insert at that instant: the new value wins
    for an ID present in both, and the IDs only stored before are kept. *)
Theorem insert_event_get_event id e t t' :
  table_wf t ->
  InsertEvent id e t = (Ok tt, t') ->
  exists r t1, toRawEvent e t = (Ok r, t1) /\
    GetEvent id (e_Timestamp e) t' =
      (let* ev := toEvent (mkRaw (r_timestamp r) (r_data r ∪ stored_data id (e_Timestamp e) t)) in
       ret (Some ev)) t'.
Proof.
  intros Hwf Hrun.
  apply bind_ok_inv in Hrun as (u & t0 & Hchk & Hins).
  apply check_open_inv in Hchk as [-> Hop].
  unfold insertEvent in Hins.
  destruct (bool_decide (id = "")) eqn:Hid; [discriminate|]. apply bool_decide_eq_false in Hid.
  apply bind_ok_inv in Hins as (r & t1 & Hraw & Hins).
  exists r, t1. split; [exact Hraw|].
  pose proof (Keeps_toRawEvent e t) as Hkeep. rewrite Hraw in Hkeep. cbn in Hkeep.
  pose proof (toRawEvent_timestamp _ _ _ _ Hraw) as Hts.
  apply bind_ok_inv in Hins as (cur & t2 & Hcur & Hins).
  pose proof (getRawEvent_keep id (r_timestamp r) t t1 Hkeep) as Hg.
  pose proof (getRawEvent_state id (r_timestamp r) t1) as Hst.
  unfold catch_err in Hcur.
  destruct (getRawEvent id (r_timestamp r) t1) as [o s] eqn:Hget. cbn in Hst, Hg. subst s.
  assert (Hmd : (match cur with
                 | Some (Some c) => mkRaw (r_timestamp r) (r_data r ∪ r_data c)
                 | _ => r end)
                = mkRaw (r_timestamp r) (r_data r ∪ stored_data id (e_Timestamp e) t) /\ t2 = t1).
  { unfold stored_data. rewrite <- Hts, <- Hg. destruct r as [rts rdata]; cbn.
    destruct o as [[c|]|err|msg]; cbn in Hcur; [| | |discriminate];
      injection Hcur as <- <-; split; auto; rewrite (right_id_L ∅ (∪)); reflexivity. }
  destruct Hmd as [Hmd ->]. cbv zeta in Hins. rewrite Hmd in Hins. cbn [r_timestamp r_data] in Hins.
  apply bind_ok_inv in Hins as (i & t3 & Hsi & Htx).
  apply shardIndex_inv in Hsi as (-> & Hsc & ->).
  apply txn_inv in Htx as (env1 & env' & Henv1 & Hput & ->).
  unfold opened in Hop. destruct (t_env t) as [env0|] eqn:Henv0; [|discriminate].
  destruct Hkeep as [Hsc1 Hsh]. rewrite Henv0, Henv1 in Hsh. cbn in Hsh. injection Hsh as Hsh.
  unfold table_wf in Hwf. rewrite Henv0 in Hwf.
  set (b := marshal_raw (mkRaw (r_timestamp r) (r_data r ∪ stored_data id (e_Timestamp e) t))) in *.
  assert (Hgot : getAt (Z.rem (hashLocal id) (t_shardCount t1)) id (be64 (r_timestamp r)) env'
                 = (Ok (Some b), env')).
  { apply (putAt_getAt _ _ _ _ env1); auto.
    intros d l Hd Hl. rewrite Hsh in Hd. exact (Hwf _ _ _ _ Hd Hl). }
  unfold GetEvent.
  rewrite (bind_ok _ _ _ _ _ (check_open_run (set_env env' t1) eq_refl)).
  assert (HgR : getRawEvent id (shiftTime (e_Timestamp e)) (set_env env' t1)
                = (Ok (Some (mkRaw (r_timestamp r) (r_data r ∪ stored_data id (e_Timestamp e) t))),
                   set_env env' t1)).
  { assert (Htx : txn true (getAt (Z.rem (hashLocal id) (t_shardCount t1)) id
                               (be64 (shiftTime (e_Timestamp e)))) (set_env env' t1)
                   = (Ok (Some b), set_env env' t1)).
    { unfold txn. cbn [set_env t_env]. rewrite <- Hts, Hgot. reflexivity. }
    unfold getRawEvent. rewrite bool_decide_false by exact Hid.
    rewrite (bind_ok _ _ _ _ _ (shardIndex_run id (set_env env' t1) Hsc)).
    change (t_shardCount (set_env env' t1)) with (t_shardCount t1). cbv beta zeta.
    rewrite (bind_ok _ _ _ _ _ Htx).
    unfold ret. f_equal. f_equal. f_equal. subst b. rewrite Hts. apply unmarshal_marshal. }
  rewrite (bind_ok _ _ _ _ _ HgR). reflexivity.
Qed.

Lemma tbl_baz_wf : table_wf tbl_baz.
Proof.
  unfold table_wf.
  assert (E : fmap env_shards (t_env tbl_baz) = Some {[0 := ∅]}) by (vm_compute; reflexivity).
  revert E. destruct (t_env tbl_baz) as [env|]; [|intros; exact I].
  intros E. cbn in E. injection E as E.
  intros i d key l Hd Hl. rewrite E in Hd. apply lookup_singleton_Some in Hd as [_ <-].
  rewrite lookup_empty in Hl. discriminate.
Qed.

Lemma tbl_bq1_wf : table_wf tbl_bq1.
Proof.
  unfold table_wf.
  assert (E : fmap env_shards (t_env tbl_bq1) =
              Some {[0 := {[ "obj" := [mkStored (be64 0) {[1 := VInt 7; 2 := VString "a"]}] ]}]})
    by (vm_compute; reflexivity).
  revert E. destruct (t_env tbl_bq1) as [env|]; [|intros; exact I].
  intros E. cbn in E. injection E as E.
  intros i d key l Hd Hl. rewrite E in Hd. apply lookup_singleton_Some in Hd as [_ <-].
  apply lookup_singleton_Some in Hl as [_ <-].
  split; [repeat constructor|]. constructor; [reflexivity|constructor].
Qed.

Lemma insert_event_get_event_witness :
  table_wf tbl_bq1 /\ InsertEvent "obj" ev_bq2 tbl_bq1 = (Ok tt, tbl_bq2) /\
  stored_data "obj" (e_Timestamp ev_bq2) tbl_bq1 = {[1 := VInt 7; 2 := VString "a"]} /\
  (exists r t1, toRawEvent ev_bq2 tbl_bq1 = (Ok r, t1) /\
    GetEvent "obj" (e_Timestamp ev_bq2) tbl_bq2 =
      (let* ev := toEvent (mkRaw (r_timestamp r)
                            (r_data r ∪ stored_data "obj" (e_Timestamp ev_bq2) tbl_bq1)) in
       ret (Some ev)) tbl_bq2) /\
  fst (GetEvent "obj" (e_Timestamp ev_bq2) tbl_bq2) =
    Ok (Some (mkEvent 0 {[ "baz" := VInt 7; "qux" := VString "b" ]})).
Proof.
  assert (H : InsertEvent "obj" ev_bq2 tbl_bq1 = (Ok tt, tbl_bq2)) by (vm_compute; reflexivity).
  split; [exact tbl_bq1_wf|]. split; [exact H|].
  split; [vm_compute; reflexivity|]. split; [|vm_compute; reflexivity].
  exact (insert_event_get_event "obj" ev_bq2 tbl_bq1 tbl_bq2 tbl_bq1_wf H).
Defined.

(** C1, counterexample to the claim as stated: the string ["12"] given
    for the integer property ["baz"] is cast by [Cast] to the integer [0]
    before it is stored, so the event read back holds [{"baz": 0}], not
    [e.Data]. *)
Lemma insert_event_cast_counterexample :
  fst (InsertEvent "obj" ev_baz tbl_baz) = Ok tt /\
  fst (GetEvent "obj" (e_Timestamp ev_baz) tbl_baz_ins)
    = Ok (Some (mkEvent 0 {[ "baz" := VInt 0 ]})) /\
  {[ "baz" := VInt 0 ]} <> e_Data ev_baz.
Proof.
  split; [vm_compute; reflexivity|]. split; [vm_compute; reflexivity|].
  intros H. pose proof (f_equal (lookup "baz") H) as H'. vm_compute in H'. discriminate.
Qed.

(* ------------------------------------------------------------------ *)
(** ** Factor keys and the factor cache *)

Lemma substring_0_length n s :
  (n <= String.length s)%nat -> String.length (substring 0 n s) = n.
Proof.
  revert s. induction n as [|n IH]; intros s H; [destruct s; reflexivity|].
  destruct s as [|a s]; cbn in *; [lia|]. rewrite IH by lia. reflexivity.
Qed.

Lemma truncateFactor_idem s : truncateFactor (truncateFactor s) = truncateFactor s.
Proof.
  unfold truncateFactor. destruct (maxKeySize <? String.length s)%nat eqn:E.
  - apply Nat.ltb_lt in E. rewrite substring_0_length by (unfold maxKeySize in *; lia).
    rewrite Nat.ltb_irrefl. reflexivity.
  - rewrite E. reflexivity.
Qed.

Lemma truncateFactor_short s : (String.length s <= 500)%nat -> truncateFactor s = s.
Proof.
  intros H. unfold truncateFactor, maxKeySize.
  destruct (500 <? String.length s)%nat eqn:E; [apply Nat.ltb_lt in E; lia|reflexivity].
Qed.

Lemma find_split_some {A} (f : A -> bool) l x rest :
  find_split f l = Some (x, rest) -> f x = true /\ (forall y, In y (x :: rest) <-> In y l).
Proof.
  revert rest. induction l as [|a l IH]; intros rest; cbn; [discriminate|].
  destruct (f a) eqn:Ha.
  - intros H; injection H as <- <-. split; [exact Ha|]. tauto.
  - destruct (find_split f l) as [[y r]|] eqn:E; [|discriminate].
    intros H; injection H as <- <-. destruct (IH r eq_refl) as [Hx Hin].
    split; [exact Hx|]. intros z. specialize (Hin z). cbn in *. tauto.
Qed.

Lemma find_split_none {A} (f : A -> bool) l :
  find_split f l = None -> forall y, In y l -> f y = false.
Proof.
  induction l as [|a l IH]; cbn; [tauto|].
  destruct (f a) eqn:Ha; [discriminate|].
  destruct (find_split f l) as [[y r]|]; [discriminate|].
  intros _ y [<-|Hy]; auto.
Qed.

Lemma In_firstn {A} n (l : list A) y : In y (firstn n l) -> In y l.
Proof.
  revert l. induction n as [|n IH]; intros [|a l]; cbn; try tauto.
  intros [<-|H]; [left; reflexivity|right; auto].
Qed.

Lemma cache_add_in c k v y :
  In y (c_items (cache_add c k v)) ->
  y = (k, v) \/ (In y (c_items c) /\ fst y <> k /\ snd y <> v).
Proof.
  unfold cache_add; cbn. intros H. apply In_firstn in H. destruct H as [<-|H]; [left; reflexivity|].
  right. apply list_elem_of_In in H. apply list_elem_of_filter in H as [Hp Hy].
  destruct y as [k' v']. cbn in *.
  destruct (bool_decide (k' = k)) eqn:E1, (bool_decide (v' = v)) eqn:E2; cbn in Hp;
    try contradiction.
  apply bool_decide_eq_false in E1, E2. split; [apply list_elem_of_In; exact Hy|auto].
Qed.

Lemma cache_add_head c k v : (1 <= c_size c)%nat -> In (k, v) (c_items (cache_add c k v)).
Proof.
  intros H. unfold cache_add; cbn. destruct (c_size c) as [|n]; [lia|]. cbn. left; reflexivity.
Qed.

Lemma cache_getValue_some c s i c' :
  cache_getValue c s = Some (i, c') ->
  In (s, i) (c_items c) /\ c_size c' = c_size c /\ (forall y, In y (c_items c') <-> In y (c_items c)).
Proof.
  unfold cache_getValue.
  destruct (find_split _ (c_items c)) as [[[k v] rest]|] eqn:E; [|discriminate].
  apply find_split_some in E as [Hk Hin]. apply bool_decide_eq_true in Hk. subst k.
  intros H; injection H as <- <-. cbn. split; [apply Hin; left; reflexivity|]. auto.
Qed.

Lemma cache_getKey_some c i s c' :
  cache_getKey c i = Some (s, c') ->
  In (s, i) (c_items c) /\ c_size c' = c_size c /\ (forall y, In y (c_items c') <-> In y (c_items c)).
Proof.
  unfold cache_getKey.
  destruct (find_split _ (c_items c)) as [[[k v] rest]|] eqn:E; [|discriminate].
  apply find_split_some in E as [Hv Hin]. apply bool_decide_eq_true in Hv. subst v.
  intros H; injection H as <- <-. cbn. split; [apply Hin; left; reflexivity|]. auto.
Qed.

Lemma cache_getKey_in fd c s i :
  cache_ok fd c -> In (s, i) (c_items c) -> exists c', cache_getKey c i = Some (s, c').
Proof.
  intros (_ & Huniq & _) Hin. unfold cache_getKey.
  destruct (find_split (fun '(_, v) => bool_decide (v = i)) (c_items c)) as [[[k v] rest]|] eqn:E.
  - apply find_split_some in E as [Hv Hin']. apply bool_decide_eq_true in Hv. subst v.
    assert (k = s) as -> by (apply (Huniq k s i); [apply Hin'; left; reflexivity|exact Hin]).
    eauto.
  - pose proof (find_split_none _ _ E _ Hin) as H. cbn in H.
    rewrite bool_decide_true in H by reflexivity. discriminate.
Qed.

(* ------------------------------------------------------------------ *)
(** ** Running [factorize] *)

Lemma get_cache_run pid t c : t_caches t !! pid = Some c -> get_cache pid t = (Ok c, t).
Proof. intros H. unfold get_cache, bind, get. cbn. rewrite H. reflexivity. Qed.

Lemma read_factor_run {A} pid (f : FactorDB -> A) t env fd :
  t_env t = Some env -> env_factors env !! pid = Some fd ->
  txn true (let* fd := factor_dbi pid in ret (f fd)) t = (Ok (f fd), t).
Proof.
  intros Henv Hfd. unfold txn, factor_dbi, bind, get, ret. rewrite Henv. cbn. rewrite Hfd.
  reflexivity.
Qed.

Lemma addFactor_run pid s t env fd c i t1 :
  t_env t = Some env -> env_factors env !! pid = Some fd -> t_caches t !! pid = Some c ->
  addFactor pid s t = (Ok i, t1) ->
  i = seqno fd + 1 /\
  t_env t1 = Some (mkEnv false (env_meta env) (env_shards env)
                     (<[pid := mkFactorDB (Some i) (<[truncateFactor s := i]> (fd_fwd fd))
                                 (<[i := truncateFactor s]> (fd_rev fd))]> (env_factors env))) /\
  t_caches t1 = <[pid := cache_add c (truncateFactor s) i]> (t_caches t).
Proof.
  intros Henv Hfd Hc.
  unfold addFactor, txn, factor_put, factor_dbi, bind, get, put, ret, fail, crash, cache_insert,
    get_cache, put_cache, modify, set_env, set_caches, factorKey.
  rewrite Henv. cbn. destruct (env_full env) eqn:Hfull;
  repeat progress (cbn; rewrite ?Hfd, ?Hfull, ?lookup_insert_eq, ?Hc); [discriminate|].
  unfold bind, get, ret, crash, get_cache, put_cache, modify, set_caches. cbn. rewrite Hc. cbn.
  intros H; injection H as <- <-. split; [reflexivity|].
  split; [|reflexivity]. cbn. rewrite !insert_insert_eq, truncateFactor_idem. reflexivity.
Qed.

Lemma cache_insert_run pid s i t c :
  t_caches t !! pid = Some c ->
  cache_insert pid s i t = (Ok tt, set_caches (<[pid := cache_add c s i]> (t_caches t)) t).
Proof.
  intros H. unfold cache_insert. rewrite (bind_ok _ _ _ _ _ (get_cache_run _ _ _ H)). reflexivity.
Qed.

Lemma cache_ok_rotate fd c c' :
  cache_ok fd c -> c_size c' = c_size c -> (forall y, In y (c_items c') <-> In y (c_items c)) ->
  cache_ok fd c'.
Proof.
  intros (Hsz & Hu & Hf) Hs Heq. split; [lia|]. split.
  - intros s1 s2 i H1 H2. apply Heq in H1, H2. eauto.
  - intros s i H. apply Heq in H. eauto.
Qed.

Lemma cache_ok_add fd fd' c s v :
  cache_ok fd c -> fd_fwd fd' !! truncateFactor s = Some v ->
  (forall s' i', In (s', i') (c_items c) -> s' <> s -> i' <> v ->
     fd_fwd fd' !! truncateFactor s' = Some i') ->
  cache_ok fd' (cache_add c s v).
Proof.
  intros (Hsz & Hu & Hf) Hnew Hold. split; [exact Hsz|]. split.
  - intros s1 s2 i H1 H2.
    apply cache_add_in in H1 as [H1|(H1 & Hk1 & Hv1)], H2 as [H2|(H2 & Hk2 & Hv2)];
      cbn in *; try (injection H1 as -> ->); try (injection H2 as -> ->); try congruence.
    eauto.
  - intros s' i' H. apply cache_add_in in H as [H|(H & Hk & Hv)].
    + injection H as -> ->. exact Hnew.
    + cbn in *. eauto.
Qed.

Lemma fdb_ok_add fd ts :
  fdb_ok fd -> fd_fwd fd !! ts = None ->
  fdb_ok (mkFactorDB (Some (seqno fd + 1)) (<[ts := seqno fd + 1]> (fd_fwd fd))
            (<[seqno fd + 1 := ts]> (fd_rev fd))).
Proof.
  intros (Hseq & Hfw & Hrv) Hnone. unfold fdb_ok, seqno in *; cbn.
  split; [lia|]. split.
  - intros s i H. destruct (decide (s = ts)) as [->|Hne].
    + rewrite lookup_insert_eq in H. injection H as <-. split; [lia|]. apply lookup_insert_eq.
    + rewrite lookup_insert_ne in H by congruence. destruct (Hfw s i H) as [Hr Hrev].
      split; [lia|]. rewrite lookup_insert_ne by lia. exact Hrev.
  - intros i s H. destruct (decide (i = default 0 (fd_seq fd) + 1)) as [->|Hne].
    + rewrite lookup_insert_eq in H. injection H as <-. apply lookup_insert_eq.
    + rewrite lookup_insert_ne in H by congruence. pose proof (Hrv i s H) as Hf.
      rewrite lookup_insert_ne; [exact Hf|]. intros ->. congruence.
Qed.

Lemma factorize_step pid s t i t1 env fd c :
  t_env t = Some env -> env_factors env !! pid = Some fd -> t_caches t !! pid = Some c ->
  fdb_ok fd -> cache_ok fd c -> s <> "" ->
  factorize pid s true t = (Ok i, t1) ->
  exists env1 fd1 c1,
    t_env t1 = Some env1 /\ env_factors env1 !! pid = Some fd1 /\ t_caches t1 !! pid = Some c1 /\
    fdb_ok fd1 /\ cache_ok fd1 c1 /\
    fd_fwd fd ⊆ fd_fwd fd1 /\ fd_fwd fd1 !! truncateFactor s = Some i /\
    ((fd_fwd fd !! truncateFactor s = Some i /\ fd1 = fd) \/
     (fd_fwd fd !! truncateFactor s = None /\ i = seqno fd + 1 /\ seqno fd1 = i)) /\
    (In (s, i) (c_items c1) \/ In (truncateFactor s, i) (c_items c1)).
Proof.
  intros Henv Hfd Hc Hfdb Hcache Hs H.
  pose proof Hfdb as (Hseq & Hfw & Hrv). pose proof Hcache as (Hsz & Hu & Hcf).
  unfold factorize in H. rewrite bool_decide_false in H by exact Hs.
  rewrite (bind_ok _ _ _ _ _ (get_cache_run _ _ _ Hc)) in H.
  destruct (cache_getValue c s) as [[sq c']|] eqn:Hcv.
  - apply cache_getValue_some in Hcv as (Hin & Hsz' & Heq).
    unfold put_cache, modify, bind, ret in H; cbn in H. injection H as <- <-.
    exists env, fd, c'. cbn [set_caches t_env t_caches].
    split; [exact Henv|]. split; [exact Hfd|]. split; [apply lookup_insert_eq|].
    split; [exact Hfdb|]. split; [exact (cache_ok_rotate _ _ _ Hcache Hsz' Heq)|].
    split; [reflexivity|]. split; [exact (Hcf _ _ Hin)|].
    split; [left; split; [exact (Hcf _ _ Hin)|reflexivity]|]. left. apply Heq. exact Hin.
  - rewrite (bind_ok _ _ _ _ _ (read_factor_run _ _ _ _ _ Henv Hfd)) in H.
    unfold factorKey in H.
    destruct (fd_fwd fd !! truncateFactor s) as [v|] eqn:Hf; cbn [default from_option id] in H.
    + destruct (bool_decide (v <> 0)) eqn:Hv0.
        rewrite (bind_ok _ _ _ _ _ (cache_insert_run _ _ _ _ _ Hc)) in H.
        unfold ret in H. injection H as <- <-.
        exists env, fd, (cache_add c s v). cbn [set_caches t_env t_caches].
        split; [exact Henv|]. split; [exact Hfd|]. split; [apply lookup_insert_eq|].
        split; [exact Hfdb|].
        split; [apply (cache_ok_add fd fd); [exact Hcache|exact Hf|intros; eauto]|].
        split; [reflexivity|]. split; [exact Hf|]. split; [left; auto|].
        left. apply cache_add_head. exact Hsz.
      * apply bool_decide_eq_false in Hv0. destruct (Hfw _ _ Hf) as [Hr _]. lia.
    + rewrite bool_decide_false in H by lia.
      destruct (addFactor_run _ _ _ _ _ _ _ _ Henv Hfd Hc H) as (-> & Henv1 & Hc1).
      eexists _, _, _. split; [exact Henv1|]. split; [apply lookup_insert_eq|].
      split; [rewrite Hc1; apply lookup_insert_eq|].
      split; [exact (fdb_ok_add fd _ Hfdb Hf)|].
      split.
      { apply (cache_ok_add fd); [exact Hcache|cbn; rewrite truncateFactor_idem; apply lookup_insert_eq|].
        intros s' i' Hin _ _. pose proof (Hcf _ _ Hin) as Hf'. cbn.
        rewrite lookup_insert_ne; [exact Hf'|]. congruence. }
      split; [cbn; apply insert_subseteq; exact Hf|].
      split; [cbn; apply lookup_insert_eq|].
      split; [right; split; [reflexivity|split; reflexivity]|].
      right. apply cache_add_head. exact Hsz.
Qed.

Lemma defactorize_cached pid t env fd c s i :
  t_env t = Some env -> env_factors env !! pid = Some fd -> t_caches t !! pid = Some c ->
  fdb_ok fd -> cache_ok fd c -> In (s, i) (c_items c) ->
  fst (defactorize pid i t) = Ok s.
Proof.
  intros Henv Hfd Hc Hfdb Hcache Hin.
  pose proof (proj2 (proj2 Hcache) _ _ Hin) as Hf.
  destruct (proj1 (proj2 Hfdb) _ _ Hf) as [Hr _].
  destruct (cache_getKey_in _ _ _ _ Hcache Hin) as [c' Hk].
  unfold defactorize. rewrite bool_decide_false by lia.
  rewrite (bind_ok _ _ _ _ _ (get_cache_run _ _ _ Hc)), Hk. reflexivity.
Qed.

(** C5 (confirmed, with the factor cache modelled from the spec):
    [factorize pid ""] is [0] and [defactorize pid 0] is [""]; on a factor
    property whose DBI and cache are consistent ([factor_inv]), a
    successful [factorize pid s true] keeps them consistent, returns the
    index already bound to the key of [s] or else the next one, [seq + 1]
    (the sequence starts at 0, so the first index is 1), never drops a
    binding, and for [s] of at most 500 bytes [defactorize] then returns
    [s]; two strings of at most 500 bytes factorized one after the other
    get the same index only if they are equal. *)
Theorem factorize_defactorize pid t :
  fst (factorize pid "" true t) = Ok 0 /\ fst (defactorize pid 0 t) = Ok "" /\
  (factor_inv pid t -> forall s i t1, s <> "" -> factorize pid s true t = (Ok i, t1) ->
     factor_inv pid t1 /\
     1 <= i <= seqno (factor_db_of pid t1) /\
     fd_fwd (factor_db_of pid t) ⊆ fd_fwd (factor_db_of pid t1) /\
     (fd_fwd (factor_db_of pid t) !! truncateFactor s = Some i \/
      (fd_fwd (factor_db_of pid t) !! truncateFactor s = None /\
       i = seqno (factor_db_of pid t) + 1 /\ seqno (factor_db_of pid t1) = i)) /\
     ((String.length s <= 500)%nat -> fst (defactorize pid i t1) = Ok s) /\
     (forall s' i' t2, s' <> "" -> factorize pid s' true t1 = (Ok i', t2) ->
        (String.length s <= 500)%nat -> (String.length s' <= 500)%nat -> i' = i -> s' = s)).
Proof.
  split; [unfold factorize; rewrite bool_decide_true by reflexivity; reflexivity|].
  split; [unfold defactorize; rewrite bool_decide_true by reflexivity; reflexivity|].
  intros (env & fd & c & Henv & Hfd & Hc & Hfdb & Hcache) s i t1 Hs H.
  destruct (factorize_step _ _ _ _ _ _ _ _ Henv Hfd Hc Hfdb Hcache Hs H)
    as (env1 & fd1 & c1 & Henv1 & Hfd1 & Hc1 & Hfdb1 & Hcache1 & Hsub & Hfw1 & Hcase & Hin).
  assert (E0 : factor_db_of pid t = fd) by (unfold factor_db_of; rewrite Henv, Hfd; reflexivity).
  assert (E1 : factor_db_of pid t1 = fd1) by (unfold factor_db_of; rewrite Henv1, Hfd1; reflexivity).
  rewrite E0, E1.
  split; [exists env1, fd1, c1; auto|].
  split; [exact (proj1 (proj1 (proj2 Hfdb1) _ _ Hfw1))|].
  split; [exact Hsub|].
  split; [destruct Hcase as [[Hl _]|Hr]; [left; exact Hl|right; exact Hr]|].
  split.
  { intros Hlen. rewrite truncateFactor_short in Hin by exact Hlen.
    apply (defactorize_cached pid t1 env1 fd1 c1); auto. destruct Hin; auto. }
  intros s' i' t2 Hs' H2 Hlen Hlen' ->.
  destruct (factorize_step _ _ _ _ _ _ _ _ Henv1 Hfd1 Hc1 Hfdb1 Hcache1 Hs' H2)
    as (env2 & fd2 & c2 & _ & _ & _ & Hfdb2 & _ & Hsub2 & Hfw2 & _ & _).
  rewrite truncateFactor_short in Hfw1, Hfw2 by assumption.
  pose proof (lookup_weaken _ _ _ _ Hfw1 Hsub2) as Hfw1'.
  destruct (proj1 (proj2 Hfdb2) _ _ Hfw1') as [_ Hr1].
  destruct (proj1 (proj2 Hfdb2) _ _ Hfw2) as [_ Hr2].
  congruence.
Qed.

Lemma tbl_bar_factor_inv : factor_inv 1 tbl_bar.
Proof.
  assert (E : fmap (fun e => env_factors e !! 1) (t_env tbl_bar) = Some (Some emptyFactorDB))
    by (vm_compute; reflexivity).
  assert (Ec : t_caches tbl_bar !! 1 = Some (newCache FactorCacheSize)) by (vm_compute; reflexivity).
  destruct (t_env tbl_bar) as [e|] eqn:He; cbn in E; [|discriminate]. injection E as E.
  exists e, emptyFactorDB, (newCache FactorCacheSize).
  split; [exact He|]. split; [exact E|]. split; [exact Ec|]. split.
  - unfold fdb_ok, seqno; cbn. split; [lia|].
    split; intros ? ? H; rewrite lookup_empty in H; discriminate.
  - unfold cache_ok; cbn. split; [unfold FactorCacheSize; lia|]. split; intros; contradiction.
Qed.

Lemma factorize_defactorize_witness :
  factor_inv 1 tbl_bar /\ factorize 1 "x" true tbl_bar = (Ok 1, tbl_bar_x) /\
  fst (defactorize 1 1 tbl_bar_x) = Ok "x".
Proof.
  assert (H : factorize 1 "x" true tbl_bar = (Ok 1, tbl_bar_x)) by (vm_compute; reflexivity).
  split; [exact tbl_bar_factor_inv|]. split; [exact H|].
  refine (proj1 (proj2 (proj2 (proj2 (proj2
            (proj2 (proj2 (factorize_defactorize 1 tbl_bar)) tbl_bar_factor_inv
               "x" 1 tbl_bar_x ltac:(discriminate) H))))) _).
  cbn. lia.
Defined.

(* ------------------------------------------------------------------ *)
(** ** The timestamp codec on its whole range *)

Lemma wrap64_small z : - 2 ^ 63 <= z < 2 ^ 63 -> wrap64 z = z.
Proof.
  intros H. unfold wrap64. destruct (Z.le_gt_cases 0 z) as [Hz|Hz].
  - rewrite Z.mod_small by lia. rewrite (proj2 (Z.ltb_lt z (2 ^ 63))) by lia. reflexivity.
  - assert (E : z mod 2 ^ 64 = z + 2 ^ 64).
    { symmetry. apply (Z.mod_unique _ _ (-1)); lia. }
    rewrite E. rewrite (proj2 (Z.ltb_ge _ _)) by lia. lia.
Qed.

(** Go's truncating division by a positive constant: quotient and
    remainder, the remainder with the sign of the dividend. *)
Lemma quot_rem_facts a b :
  0 < b ->
  a = b * Z.quot a b + Z.rem a b /\
  (0 <= a -> 0 <= Z.rem a b < b /\ 0 <= Z.quot a b) /\
  (a <= 0 -> - b < Z.rem a b <= 0 /\ Z.quot a b <= 0).
Proof.
  intros Hb. pose proof (Z.quot_rem' a b) as E. split; [exact E|]. split.
  - intros Ha. pose proof (Z.rem_bound_pos a b Ha Hb). split; [lia|].
    apply Z.quot_pos; lia.
  - intros Ha. pose proof (Z.rem_bound_pos_neg a b Hb Ha). split; [lia|].
    destruct (Z.le_gt_cases (Z.quot a b) 0); [lia|]. nia.
Qed.

(** [shiftTime] without overflow: [sec * 2^20 + usec], Go's [/] and [%]
    truncating toward zero. *)
Lemma shiftTime_eq t :
  - 2 ^ 63 <= t < 2 ^ 63 ->
  shiftTime t = Z.quot (Z.quot t 1000) 1000000 * 2 ^ 20 + Z.rem (Z.quot t 1000) 1000000.
Proof.
  intros Ht. unfold shiftTime, SecondsBitOffset.
  rewrite Z.shiftl_mul_pow2 by lia.
  set (T := Z.quot t 1000). set (sec := Z.quot T 1000000). set (u := Z.rem T 1000000).
  destruct (quot_rem_facts t 1000 ltac:(lia)) as (E1 & P1 & N1). fold T in E1, P1, N1.
  destruct (quot_rem_facts T 1000000 ltac:(lia)) as (E2 & P2 & N2). fold sec u in E2, P2, N2.
  assert (Hb : - 9223372037 <= sec <= 9223372037 /\ -1000000 < u < 1000000).
  { destruct (Z.le_gt_cases 0 t) as [Hp|Hn].
    - destruct (P1 Hp) as [? HT]. destruct (P2 HT). lia.
    - destruct (N1 ltac:(lia)) as [? HT]. destruct (N2 HT). lia. }
  rewrite (wrap64_small (sec * 2 ^ 20)) by lia.
  apply wrap64_small. lia.
Qed.

Lemma unshiftTime_eq x :
  unshiftTime x = x / 2 ^ 20 * 1000000000 + x mod 2 ^ 20 * 1000.
Proof.
  unfold unshiftTime, SecondsBitOffset. change 1048575 with (Z.ones 20).
  rewrite Z.land_ones, Z.shiftr_div_pow2 by lia. lia.
Qed.

(** X13: [unshiftTime(shiftTime(t))] for every [int64] instant [t] of
    microsecond resolution: [t] itself when [t] is not before the epoch
    or is a whole second, and [t] plus 48.576 ms otherwise. *)
Theorem unshift_shift_time t :
  - 2 ^ 63 <= t < 2 ^ 63 -> t mod 1000 = 0 ->
  unshiftTime (shiftTime t) =
    if (0 <=? t) || (t mod 1000000000 =? 0) then t else t + 48576000.
Proof.
  intros Ht Hus. rewrite shiftTime_eq by exact Ht. rewrite unshiftTime_eq.
  destruct (Z.mod_divide t 1000 ltac:(lia)) as [Hd _]. destruct (Hd Hus) as [k ->].
  rewrite Z.quot_mul by lia.
  set (sec := Z.quot k 1000000). set (u := Z.rem k 1000000).
  destruct (quot_rem_facts k 1000000 ltac:(lia)) as (E2 & P2 & N2). fold sec u in E2, P2, N2.
  clearbody sec u.
  destruct (Z.le_gt_cases 0 k) as [Hk|Hk].
  - destruct (P2 Hk) as [Hu _].
    rewrite <- (Z.mod_unique (sec * 2 ^ 20 + u) (2 ^ 20) sec u) by lia.
    rewrite <- (Z.div_unique (sec * 2 ^ 20 + u) (2 ^ 20) sec u) by lia.
    rewrite (proj2 (Z.leb_le 0 (k * 1000))) by lia. cbn [orb]. lia.
  - destruct (N2 ltac:(lia)) as [Hu _].
    rewrite (proj2 (Z.leb_gt 0 (k * 1000))) by lia. cbn [orb].
    destruct (Z.eq_dec u 0) as [Hu0|Hu0].
    + subst u k. rewrite !Z.add_0_r, Z.mod_mul, Z.div_mul by lia.
      replace (1000000 * sec * 1000) with (sec * 1000000000) by lia.
      rewrite Z.mod_mul by lia. cbn. lia.
    + rewrite <- (Z.mod_unique (sec * 2 ^ 20 + u) (2 ^ 20) (sec - 1) (u + 2 ^ 20)) by lia.
      rewrite <- (Z.div_unique (sec * 2 ^ 20 + u) (2 ^ 20) (sec - 1) (u + 2 ^ 20)) by lia.
      replace ((k * 1000) mod 1000000000 =? 0) with false; [lia|].
      symmetry. apply Z.eqb_neq. intros Hm. apply Hu0.
      apply Z.mod_divide in Hm as [m Hm]; [|lia]. lia.
Qed.

Lemma unshift_shift_time_witness :
  (- 2 ^ 63 <= -1000 < 2 ^ 63 /\ -1000 mod 1000 = 0) /\
  unshiftTime (shiftTime (-1000)) = -1000 + 48576000.
Proof.
  split; [split; [lia|reflexivity]|].
  exact (unshift_shift_time (-1000) ltac:(lia) eq_refl).
Defined.
Lemma shiftTime_mono a b :
  - 2 ^ 63 <= a -> a <= b -> b < 2 ^ 63 ->
  shiftTime a <= shiftTime b /\
  (Z.quot a 1000 < Z.quot b 1000 -> shiftTime a < shiftTime b).
Proof.
  intros Ha Hab Hb. rewrite !shiftTime_eq by lia.
  assert (HT : Z.quot a 1000 <= Z.quot b 1000) by (apply Z.quot_le_mono; lia).
  set (Ta := Z.quot a 1000) in *. set (Tb := Z.quot b 1000) in *.
  destruct (quot_rem_facts Ta 1000000 ltac:(lia)) as (Ea & Pa & Na).
  destruct (quot_rem_facts Tb 1000000 ltac:(lia)) as (Eb & Pb & Nb).
  set (sa := Z.quot Ta 1000000) in *. set (ua := Z.rem Ta 1000000) in *.
  set (sb := Z.quot Tb 1000000) in *. set (ub := Z.rem Tb 1000000) in *.
  assert (Hs : sa <= sb) by (apply Z.quot_le_mono; lia).
  clearbody Ta Tb sa ua sb ub. change (2 ^ 20) with 1048576.
  destruct (Z.le_gt_cases 0 Ta) as [Ha0|Ha0]; destruct (Z.le_gt_cases 0 Tb) as [Hb0|Hb0];
    [destruct (Pa Ha0), (Pb Hb0)|destruct (Pa Ha0), (Nb ltac:(lia))
    |destruct (Na ltac:(lia)), (Pb Hb0)|destruct (Na ltac:(lia)), (Nb ltac:(lia))];
    split; intros; lia.
Qed.

(** X14: [shiftTime] is monotone on the whole [int64] range, and strictly
    so between instants whose microsecond counts differ. *)
Theorem shiftTime_monotone a b :
  - 2 ^ 63 <= a -> a <= b -> b < 2 ^ 63 ->
  shiftTime a <= shiftTime b /\
  (Z.quot a 1000 < Z.quot b 1000 -> shiftTime a < shiftTime b).
Proof. exact (shiftTime_mono a b). Qed.

Lemma shiftTime_monotone_witness :
  (- 2 ^ 63 <= 0 /\ 0 <= 1000 /\ 1000 < 2 ^ 63 /\ Z.quot 0 1000 < Z.quot 1000 1000) /\
  shiftTime 0 < shiftTime 1000.
Proof.
  split; [repeat split; cbn; lia|].
  exact (proj2 (shiftTime_monotone 0 1000 ltac:(lia) ltac:(lia) ltac:(lia)) ltac:(reflexivity)).
Defined.

(* ------------------------------------------------------------------ *)
(** ** Big-endian bytes in LMDB's order *)

Lemma fold_horner_acc l acc :
  fold_left (fun acc x => acc * 256 + x) l acc = acc * 256 ^ Z.of_nat (length l) + be_uvalue l.
Proof.
  unfold be_uvalue. revert acc. induction l as [|x l IH]; intros acc; cbn [fold_left length].
  - lia.
  - rewrite (IH (acc * 256 + x)), (IH (0 * 256 + x)).
    rewrite Nat2Z.inj_succ, Z.pow_succ_r by lia. ring.
Qed.

Lemma be_uvalue_cons x l : be_uvalue (x :: l) = x * 256 ^ Z.of_nat (length l) + be_uvalue l.
Proof. unfold be_uvalue at 1. cbn [fold_left]. rewrite fold_horner_acc. ring. Qed.

Lemma be_uvalue_bound l :
  Forall (fun x => 0 <= x < 256) l -> 0 <= be_uvalue l < 256 ^ Z.of_nat (length l).
Proof.
  induction 1 as [|x l Hx Hl IH]; [cbn; lia|].
  rewrite be_uvalue_cons. cbn [length]. rewrite Nat2Z.inj_succ, Z.pow_succ_r by lia. nia.
Qed.

Lemma bytes_ltb_uvalue a b :
  length a = length b -> Forall (fun x => 0 <= x < 256) a -> Forall (fun x => 0 <= x < 256) b ->
  bytes_ltb a b = (be_uvalue a <? be_uvalue b).
Proof.
  revert b. induction a as [|x a IH]; intros [|y b] Hl Ha Hb; cbn in Hl; try discriminate.
  - reflexivity.
  - injection Hl as Hl. inversion Ha as [|? ? Hx Ha']; inversion Hb as [|? ? Hy Hb']; subst.
    cbn [bytes_ltb]. rewrite (IH b Hl Ha' Hb'), !be_uvalue_cons, Hl.
    pose proof (be_uvalue_bound a Ha') as Ba. pose proof (be_uvalue_bound b Hb') as Bb.
    rewrite Hl in Ba. set (B := 256 ^ Z.of_nat (length b)) in *. clearbody B.
    destruct (Z.lt_trichotomy x y) as [Hxy|[<-|Hxy]].
    + rewrite (proj2 (Z.ltb_lt x y)) by lia. symmetry. apply Z.ltb_lt. nia.
    + rewrite Z.ltb_irrefl, Z.eqb_refl. cbn. destruct (Z.ltb_spec (be_uvalue a) (be_uvalue b));
        symmetry; [apply Z.ltb_lt|apply Z.ltb_ge]; lia.
    + rewrite (proj2 (Z.ltb_ge x y)), (proj2 (Z.eqb_neq x y)) by lia. cbn.
      symmetry. apply Z.ltb_ge. nia.
Qed.

Lemma be64_bytes v : Forall (fun x => 0 <= x < 256) (be64 v).
Proof.
  unfold be64. change 255 with (Z.ones 8).
  repeat constructor; rewrite Z.land_ones by lia; apply Z.mod_pos_bound; lia.
Qed.

Lemma be_uvalue_be64 v : be_uvalue (be64 v) = v mod 2 ^ 64.
Proof. apply horner_be64. apply Z.mod_pos_bound. lia. Qed.

(** X15: LMDB's byte order on the eight-byte big-endian prefixes
    [binary.Write] produces is the order of the timestamps read as
    unsigned 64-bit integers; in particular the prefixes of two instants
    since the epoch that differ in their microseconds are ordered as the
    instants. *)
Theorem be64_order x y :
  bytes_ltb (be64 x) (be64 y) = (x mod 2 ^ 64 <? y mod 2 ^ 64) /\
  (0 <= x -> x < y -> y < 2 ^ 63 -> Z.quot x 1000 < Z.quot y 1000 ->
   bytes_ltb (shiftTimeBytes x) (shiftTimeBytes y) = true).
Proof.
  assert (G : forall x y, bytes_ltb (be64 x) (be64 y) = (x mod 2 ^ 64 <? y mod 2 ^ 64)).
  { intros a b. rewrite bytes_ltb_uvalue by (reflexivity || apply be64_bytes).
    rewrite !be_uvalue_be64. reflexivity. }
  split; [apply G|]. intros Hx Hxy Hy Hq. unfold shiftTimeBytes. rewrite G.
  destruct (shiftTime_mono x y ltac:(lia) ltac:(lia) Hy) as [_ Hlt].
  specialize (Hlt Hq).
  destruct (shiftTime_mono 0 x ltac:(lia) Hx ltac:(lia)) as [H0 _].
  change (shiftTime 0) with 0 in H0.
  assert (Hy' : shiftTime y < 2 ^ 63).
  { rewrite shiftTime_eq by lia.
    destruct (quot_rem_facts y 1000 ltac:(lia)) as (E1 & P1 & _).
    destruct (P1 ltac:(lia)) as [_ HT].
    destruct (quot_rem_facts (Z.quot y 1000) 1000000 ltac:(lia)) as (E2 & P2 & _).
    destruct (P2 HT). lia. }
  rewrite !Z.mod_small by lia. apply Z.ltb_lt. exact Hlt.
Qed.

Lemma be64_order_witness :
  (0 <= 0 /\ 0 < 1000 /\ 1000 < 2 ^ 63 /\ Z.quot 0 1000 < Z.quot 1000 1000) /\
  bytes_ltb (shiftTimeBytes 0) (shiftTimeBytes 1000) = true.
Proof.
  split; [repeat split; cbn; lia|].
  exact (proj2 (be64_order 0 1000) ltac:(lia) ltac:(lia) ltac:(lia) ltac:(reflexivity)).
Defined.

(** X16: [unshiftTimeBytes] undoes [shiftTimeBytes] exactly as
    [unshiftTime] undoes [shiftTime]: the eight bytes carry the shifted
    timestamp unchanged; a slice shorter than eight bytes panics. *)
Theorem shift_time_bytes_roundtrip t :
  length (shiftTimeBytes t) = 8%nat /\
  unshiftTimeBytes (shiftTimeBytes t) = Some (unshiftTime (shiftTime t)) /\
  (forall b, (length b < 8)%nat -> unshiftTimeBytes b = None).
Proof.
  split; [reflexivity|]. split.
  - unfold unshiftTimeBytes, shiftTimeBytes. rewrite be64_length. cbn [Nat.ltb Nat.leb].
    change (firstn 8 (be64 (shiftTime t))) with (be64 (shiftTime t)).
    rewrite be_uvalue_be64. unfold wrap64 at 1. rewrite Z.mod_mod by lia.
    fold (wrap64 (shiftTime t)). rewrite shiftTime_wrap. reflexivity.
  - intros b Hb. unfold unshiftTimeBytes. rewrite (proj2 (Nat.ltb_lt _ _) Hb). reflexivity.
Qed.

Lemma shift_time_bytes_roundtrip_witness :
  (length [0; 0; 0] < 8)%nat /\ unshiftTimeBytes [0; 0; 0] = None.
Proof.
  split; [cbn; lia|]. exact (proj2 (proj2 (shift_time_bytes_roundtrip 0)) [0; 0; 0] ltac:(cbn; lia)).
Defined.

(* ------------------------------------------------------------------ *)
(** ** Reading a key's duplicates by prefix *)

Lemma find_prefix_none p l :
  (forall w, In w l -> sv_prefix w <> p) -> find_prefix p l = None.
Proof.
  intros H. induction l as [|w l IH]; [reflexivity|]. cbn.
  rewrite bool_decide_false by (apply H; left; reflexivity).
  apply IH. intros w' Hw'. apply H. right. exact Hw'.
Qed.

Lemma find_prefix_none_inv p l :
  find_prefix p l = None -> forall w, In w l -> sv_prefix w <> p.
Proof.
  induction l as [|x l IH]; cbn; [tauto|].
  destruct (bool_decide (sv_prefix x = p)) eqn:B; [discriminate|].
  apply bool_decide_eq_false in B. intros H w [<-|Hw]; auto.
Qed.

Lemma find_prefix_some p l v : find_prefix p l = Some v -> In v l /\ sv_prefix v = p.
Proof.
  unfold find_prefix. intros H. split; [exact (proj1 (find_some _ _ H))|].
  apply find_some in H as [_ H]. apply bool_decide_eq_true in H. exact H.
Qed.

Lemma has_prefix_ne v p :
  length (sv_prefix v) = 8%nat -> length p = 8%nat -> sv_prefix v <> p -> has_prefix v p = false.
Proof.
  intros Hv Hp Hne. destruct (has_prefix v p) eqn:E; [|reflexivity].
  exfalso. apply Hne. apply has_prefix_eq; auto.
Qed.

(** On sorted duplicates [getAt]'s cursor step finds exactly the value
    stored under the prefix. *)
Lemma locate_find p l :
  dups_sorted l -> length p = 8%nat ->
  match get_both_range p l with
  | Some v => if has_prefix v p then Some v else None
  | None => None
  end = find_prefix p l.
Proof.
  intros [Hs Hl] Hp. induction Hs as [|w l Hs IH Hall]; [reflexivity|].
  inversion Hl as [|? ? Hw Hl']; subst.
  rewrite List.Forall_forall in Hall.
  unfold get_both_range, find_prefix in *. cbn [List.find].
  destruct (bool_decide (sv_prefix w = p)) eqn:Heq.
  - apply bool_decide_eq_true in Heq.
    unfold bytes_leb. rewrite Heq, bool_decide_true, orb_true_r by reflexivity.
    unfold has_prefix. rewrite Hp, <- Heq, <- Hw, firstn_all, bool_decide_true by reflexivity.
    reflexivity.
  - apply bool_decide_eq_false in Heq.
    destruct (bytes_leb p (sv_prefix w)) eqn:Hle.
    + assert (Hlt : bytes_ltb p (sv_prefix w) = true).
      { unfold bytes_leb in Hle. apply orb_true_iff in Hle as [Hle|Hle]; [exact Hle|].
        apply bool_decide_eq_true in Hle. congruence. }
      rewrite has_prefix_ne by auto. symmetry. apply find_prefix_none.
      intros w' Hw' E. specialize (Hall w' Hw'). rewrite E in Hall.
      pose proof (bytes_ltb_trans _ _ _ Hlt Hall) as H. rewrite bytes_ltb_irrefl in H. discriminate.
    + apply IH. exact Hl'.
Qed.

Lemma getAt_find i key p env d :
  env_shards env !! i = Some d -> key <> "" ->
  (forall l, d !! key = Some l -> dups_sorted l) -> length p = 8%nat ->
  getAt i key p env = (Ok (find_prefix p (default [] (d !! key))), env).
Proof.
  intros Hd Hk Hs Hp.
  destruct (d !! key) as [l|] eqn:Hl.
  - change (default [] (Some l)) with l.
    pose proof (locate_find p l (Hs l eq_refl) Hp) as E. rewrite <- E.
    unfold getAt, shard_dbi, bind, get, ret, crash. cbn.
    rewrite Hd. cbn. rewrite bool_decide_false by exact Hk. rewrite Hl.
    destruct (get_both_range p l) as [v|]; [|reflexivity].
    destruct (has_prefix v p); reflexivity.
  - unfold getAt, shard_dbi, bind, get, ret, crash. cbn.
    rewrite Hd. cbn. rewrite bool_decide_false by exact Hk. rewrite Hl. reflexivity.
Qed.

(** [getAt] reads nothing of the environment but the key's duplicates. *)
Lemma getAt_lookup i key p env env2 :
  fmap (lookup key) (env_shards env2 !! i) = fmap (lookup key) (env_shards env !! i) ->
  fst (getAt i key p env2) = fst (getAt i key p env).
Proof.
  intros H. unfold getAt, shard_dbi, bind, get, ret, fail, crash. cbn.
  destruct (env_shards env2 !! i) as [d2|], (env_shards env !! i) as [d|];
    cbn in H; try discriminate; [|reflexivity].
  injection H as H. rewrite H. repeat case_match; reflexivity.
Qed.

(* ------------------------------------------------------------------ *)
(** ** Removing and inserting duplicates *)

Lemma remove_first_incl v l w : In w (remove_first v l) -> In w l.
Proof.
  induction l as [|x l IH]; cbn; [tauto|].
  destruct (bool_decide (x = v)); [tauto|]. intros [<-|H]; auto.
Qed.

Lemma remove_first_sorted v l : dups_sorted l -> dups_sorted (remove_first v l).
Proof.
  intros [Hs Hl]. split.
  - induction Hs as [|x l Hs IH Hall]; cbn; [constructor|].
    destruct (bool_decide (x = v)); [exact Hs|]. constructor; [apply IH; inversion Hl; auto|].
    rewrite List.Forall_forall in *. intros w Hw. apply Hall. eapply remove_first_incl; eauto.
  - rewrite List.Forall_forall in *. intros w Hw. apply Hl. eapply remove_first_incl; eauto.
Qed.

Lemma remove_first_find v l p :
  sv_prefix v <> p -> find_prefix p (remove_first v l) = find_prefix p l.
Proof.
  intros Hv. induction l as [|x l IH]; [reflexivity|]. cbn.
  destruct (bool_decide (x = v)) eqn:E.
  - apply bool_decide_eq_true in E. subst x. cbn. rewrite bool_decide_false by exact Hv. reflexivity.
  - cbn. destruct (bool_decide (sv_prefix x = p)); [reflexivity|]. exact IH.
Qed.

Lemma bytes_ltb_total a b :
  length a = length b -> a <> b -> bytes_ltb a b = true \/ bytes_ltb b a = true.
Proof.
  revert b. induction a as [|x a IH]; intros [|y b]; cbn; try easy.
  intros Hl Hne. injection Hl as Hl.
  rewrite !orb_true_iff, !andb_true_iff, !Z.ltb_lt, !Z.eqb_eq.
  destruct (Z.lt_trichotomy x y) as [H|[<-|H]]; [tauto| |tauto].
  assert (a <> b) by congruence. destruct (IH b Hl H); tauto.
Qed.

Lemma dup_insert_in v l w : In w (dup_insert v l) <-> w = v \/ In w l.
Proof.
  induction l as [|x l IH]; cbn; [intuition congruence|].
  destruct (bytes_ltb (sv_prefix v) (sv_prefix x)); cbn; [intuition congruence|].
  rewrite IH. tauto.
Qed.

Lemma dup_insert_sorted v l :
  dups_sorted l -> length (sv_prefix v) = 8%nat ->
  (forall w, In w l -> sv_prefix w <> sv_prefix v) ->
  dups_sorted (dup_insert v l).
Proof.
  intros [Hs Hl] Hv Hne. split.
  - induction Hs as [|x l Hs IH Hall]; cbn; [repeat constructor|].
    inversion Hl as [|? ? Hx Hl']; subst. rewrite List.Forall_forall in Hall.
    destruct (bytes_ltb (sv_prefix v) (sv_prefix x)) eqn:Hlt.
    + constructor; [constructor; [exact Hs|rewrite List.Forall_forall; exact Hall]|].
      constructor; [exact Hlt|]. rewrite List.Forall_forall. intros w Hw.
      exact (bytes_ltb_trans _ _ _ Hlt (Hall w Hw)).
    + constructor.
      * apply IH; [exact Hl'|]. intros w Hw. apply Hne. right. exact Hw.
      * rewrite List.Forall_forall. intros w Hw. apply dup_insert_in in Hw as [->|Hw]; auto.
        destruct (bytes_ltb_total (sv_prefix v) (sv_prefix x)) as [H|H]; try congruence.
        intros E. apply (Hne x); [left; reflexivity|congruence].
  - rewrite List.Forall_forall in *. intros w Hw. apply dup_insert_in in Hw as [->|Hw]; auto.
Qed.

Lemma dup_insert_find v l p :
  sv_prefix v <> p -> find_prefix p (dup_insert v l) = find_prefix p l.
Proof.
  intros Hv. induction l as [|x l IH]; cbn.
  - rewrite bool_decide_false by exact Hv. reflexivity.
  - destruct (bytes_ltb (sv_prefix v) (sv_prefix x)); cbn.
    + rewrite bool_decide_false by exact Hv. reflexivity.
    + destruct (bool_decide (sv_prefix x = p)); [reflexivity|]. exact IH.
Qed.

(* ------------------------------------------------------------------ *)
(** ** What [delAt] and [put_dup] change *)

(** A write to the duplicates of [key] in shard [i]: the new list [l'] is
    sorted, and answers every prefix other than [p] as [l] did. *)
Definition shard_step (i : Z) (key : string) (p : list Z) (env env' : Env) : Prop :=
  env_full env' = env_full env /\ env_meta env' = env_meta env /\
  env_factors env' = env_factors env /\
  exists d d', env_shards env !! i = Some d /\ env_shards env' = <[i := d']> (env_shards env) /\
    (forall k, k <> key -> d' !! k = d !! k) /\
    (forall l, d' !! key = Some l -> dups_sorted l) /\
    (forall p', p' <> p ->
       find_prefix p' (default [] (d' !! key)) = find_prefix p' (default [] (d !! key))).

Lemma set_shard_shape i key dups env d :
  env_shards env !! i = Some d ->
  exists d', env_shards (set_shard i key dups env) = <[i := d']> (env_shards env) /\
    (forall k, k <> key -> d' !! k = d !! k) /\
    d' !! key = match dups with [] => None | _ => Some dups end.
Proof.
  intros Hd. unfold set_shard. cbn. rewrite Hd. cbn. eexists; split; [reflexivity|].
  split.
  - intros k Hk. destruct dups; [apply lookup_delete_ne|apply lookup_insert_ne]; congruence.
  - destruct dups; [apply lookup_delete_eq|apply lookup_insert_eq].
Qed.

Lemma shard_step_refl i key p env d :
  env_shards env !! i = Some d -> (forall l, d !! key = Some l -> dups_sorted l) ->
  shard_step i key p env env.
Proof.
  intros Hd Hs. split; [reflexivity|]. split; [reflexivity|]. split; [reflexivity|].
  exists d, d. split; [exact Hd|]. split; [symmetry; apply insert_id; exact Hd|].
  split; [reflexivity|]. split; [exact Hs|]. reflexivity.
Qed.

Lemma delAt_effect i key p env env' :
  shards_wf env -> key <> "" -> length p = 8%nat ->
  delAt i key p env = (Ok tt, env') ->
  shard_step i key p env env' /\
  exists d', env_shards env' !! i = Some d' /\ find_prefix p (default [] (d' !! key)) = None.
Proof.
  intros Hwf Hk Hp. unfold delAt, shard_dbi, bind, get, put, ret, fail, crash; cbn.
  destruct (env_shards env !! i) as [d|] eqn:Hd; cbn; [|discriminate].
  rewrite bool_decide_false by exact Hk.
  assert (Hs : forall l, d !! key = Some l -> dups_sorted l) by (intros; eapply Hwf; eauto).
  destruct (d !! key) as [dups|] eqn:Hdk.
  2:{ intros H; injection H as <-. split; [eapply shard_step_refl; eauto|].
      exists d. rewrite Hd, Hdk. auto. }
  pose proof (del_located_clears p dups (Hs dups eq_refl) Hp) as Hcl.
  pose proof (locate_find p dups (Hs dups eq_refl) Hp) as Hloc.
  destruct (get_both_range p dups) as [v|] eqn:Hg.
  2:{ intros H; injection H as <-. split; [eapply shard_step_refl; eauto|].
      exists d. rewrite Hd, Hdk. split; [reflexivity|]. symmetry. exact Hloc. }
  destruct (has_prefix v p) eqn:Hh.
  2:{ intros H; injection H as <-. split; [eapply shard_step_refl; eauto|].
      exists d. rewrite Hd, Hdk. split; [reflexivity|]. symmetry. exact Hloc. }
  destruct (env_full env); [discriminate|]. intros H; injection H as <-.
  symmetry in Hloc. apply find_prefix_some in Hloc as [_ Hvp].
  destruct (set_shard_shape i key (remove_first v dups) env d Hd) as (d' & Hsh & Hother & Hkey).
  assert (Hd'k : default [] (d' !! key) = remove_first v dups)
    by (rewrite Hkey; destruct (remove_first v dups); reflexivity).
  split.
  - split; [reflexivity|]. split; [reflexivity|]. split; [reflexivity|].
    exists d, d'. split; [exact Hd|]. split; [exact Hsh|]. split; [exact Hother|]. split.
    + intros l Hl. rewrite Hkey in Hl. destruct (remove_first v dups) eqn:E; [discriminate|].
      injection Hl as <-. rewrite <- E. apply remove_first_sorted. apply Hs. reflexivity.
    + intros p' Hp'. rewrite Hd'k, Hdk. cbn. apply remove_first_find. congruence.
  - exists d'. rewrite Hsh, lookup_insert_eq. split; [reflexivity|].
    rewrite Hd'k. apply find_prefix_none. exact Hcl.
Qed.

Lemma put_dup_effect i key p v env env' d :
  env_shards env !! i = Some d -> (forall l, d !! key = Some l -> dups_sorted l) ->
  find_prefix p (default [] (d !! key)) = None ->
  sv_prefix v = p -> length p = 8%nat ->
  put_dup i key v env = (Ok tt, env') ->
  shard_step i key p env env'.
Proof.
  intros Hd Hs Hnone Hv Hp. unfold put_dup, shard_dbi, bind, get, put, ret, fail; cbn.
  rewrite Hd. cbn. destruct (env_full env); [discriminate|].
  destruct (bool_decide (v ∈ default [] (d !! key))); [discriminate|].
  intros H; injection H as <-.
  destruct (set_shard_shape i key (dup_insert v (default [] (d !! key))) env d Hd)
    as (d' & Hsh & Hother & Hkey).
  assert (Hd'k : d' !! key = Some (dup_insert v (default [] (d !! key))))
    by (rewrite Hkey; destruct (default [] (d !! key)) as [|w l]; cbn; [|destruct (bytes_ltb _ _)]; reflexivity).
  split; [reflexivity|]. split; [reflexivity|]. split; [reflexivity|].
  exists d, d'. split; [exact Hd|]. split; [exact Hsh|]. split; [exact Hother|]. split.
  - intros l Hl. rewrite Hd'k in Hl. injection Hl as <-. apply dup_insert_sorted.
    + destruct (d !! key) as [l|] eqn:E; [apply Hs; reflexivity|]. split; constructor.
    + congruence.
    + intros w Hw E. exact (find_prefix_none_inv _ _ Hnone w Hw (eq_trans E Hv)).
  - intros p' Hp'. rewrite Hd'k. cbn. apply dup_insert_find. congruence.
Qed.

Lemma shard_step_trans i key p env1 env2 env3 :
  shard_step i key p env1 env2 -> shard_step i key p env2 env3 -> shard_step i key p env1 env3.
Proof.
  intros (F1 & M1 & X1 & d1 & d2 & Hd1 & Hs2 & Ho2 & _ & Hf2)
         (F2 & M2 & X2 & d2' & d3 & Hd2 & Hs3 & Ho3 & Hsort3 & Hf3).
  rewrite Hs2, lookup_insert_eq in Hd2. injection Hd2 as <-.
  split; [congruence|]. split; [congruence|]. split; [congruence|].
  exists d1, d3. split; [exact Hd1|]. split; [rewrite Hs3, Hs2, insert_insert_eq; reflexivity|].
  split; [intros k Hk; rewrite Ho3, Ho2 by exact Hk; reflexivity|]. split; [exact Hsort3|].
  intros p' Hp'. rewrite Hf3, Hf2 by exact Hp'. reflexivity.
Qed.

Lemma shard_step_wf i key p env env' :
  shards_wf env -> shard_step i key p env env' -> shards_wf env'.
Proof.
  intros Hwf (_ & _ & _ & d & d' & Hd & Hsh & Ho & Hs & _) j dj k l Hj Hl.
  rewrite Hsh in Hj. destruct (decide (j = i)) as [->|Hji].
  - rewrite lookup_insert_eq in Hj. injection Hj as <-.
    destruct (decide (k = key)) as [->|Hk]; [exact (Hs l Hl)|].
    rewrite Ho in Hl by exact Hk. exact (Hwf _ _ _ _ Hd Hl).
  - rewrite lookup_insert_ne in Hj by congruence. exact (Hwf _ _ _ _ Hj Hl).
Qed.

(** [getAt] after a shard step answers every query but [(i, key, p)] as
    before. *)
Lemma shard_step_getAt i key p env env' j k q :
  shards_wf env -> shard_step i key p env env' -> k <> "" -> length q = 8%nat ->
  (j <> i \/ k <> key \/ q <> p) ->
  fst (getAt j k q env') = fst (getAt j k q env).
Proof.
  intros Hwf Hst Hk Hq Hne. pose proof (shard_step_wf _ _ _ _ _ Hwf Hst) as Hwf'.
  destruct Hst as (_ & _ & _ & d & d' & Hd & Hsh & Ho & Hs & Hf).
  destruct (decide (j = i)) as [->|Hji].
  2:{ apply getAt_lookup. rewrite Hsh, lookup_insert_ne by congruence. reflexivity. }
  destruct (decide (k = key)) as [->|Hkk].
  2:{ apply getAt_lookup. rewrite Hsh, lookup_insert_eq, Hd. cbn. rewrite Ho by exact Hkk. reflexivity. }
  assert (Hq' : q <> p) by tauto.
  assert (Hd' : env_shards env' !! i = Some d') by (rewrite Hsh; apply lookup_insert_eq).
  rewrite (getAt_find i key q env' d' Hd' Hk Hs Hq).
  rewrite (getAt_find i key q env d Hd Hk (fun l Hl => Hwf _ _ _ _ Hd Hl) Hq).
  cbn. rewrite Hf by exact Hq'. reflexivity.
Qed.

Lemma putAt_effect i key p v env env' :
  shards_wf env -> key <> "" -> length p = 8%nat -> sv_prefix v = p ->
  putAt i key p v env = (Ok tt, env') ->
  shard_step i key p env env' /\ getAt i key p env' = (Ok (Some v), env').
Proof.
  intros Hwf Hk Hp Hv Hrun. unfold putAt in Hrun.
  apply bind_ok_inv in Hrun as ([] & env1 & Hdel & Hput).
  destruct (delAt_effect i key p env env1 Hwf Hk Hp Hdel) as [Hst1 (d1 & Hd1 & Hn1)].
  pose proof (shard_step_wf _ _ _ _ _ Hwf Hst1) as Hwf1.
  assert (Hst2 : shard_step i key p env1 env').
  { apply (put_dup_effect i key p v env1 env' d1); auto. intros l Hl. exact (Hwf1 _ _ _ _ Hd1 Hl). }
  split; [exact (shard_step_trans _ _ _ _ _ _ Hst1 Hst2)|].
  pose proof (shard_step_wf _ _ _ _ _ Hwf1 Hst2) as Hwf'.
  destruct Hst2 as (_ & _ & _ & d & d' & Hd & Hsh & _ & Hs' & _).
  assert (Hd' : env_shards env' !! i = Some d') by (rewrite Hsh; apply lookup_insert_eq).
  rewrite (getAt_find i key p env' d' Hd' Hk Hs' Hp). do 2 f_equal.
  unfold put_dup, shard_dbi, bind, get, put, ret, fail in Hput; cbn in Hput.
  rewrite Hd in Hput. cbn in Hput. destruct (env_full env1); [discriminate|].
  destruct (bool_decide (v ∈ default [] (d !! key))); [discriminate|].
  injection Hput as <-. rewrite Hd1 in Hd. injection Hd as <-.
  destruct (set_shard_lookup i key (dup_insert v (default [] (d1 !! key))) env1) as (d2 & Hd2 & Hk2).
  rewrite Hsh, lookup_insert_eq in Hd2. injection Hd2 as <-. rewrite Hk2.
  pose proof (find_prefix_none_inv _ _ Hn1) as Hnw.
  clear -Hnw Hv. induction (default [] (d1 !! key)) as [|x l IH]; cbn.
  - rewrite bool_decide_true by exact Hv. reflexivity.
  - destruct (bytes_ltb (sv_prefix v) (sv_prefix x)); cbn.
    + rewrite bool_decide_true by exact Hv. reflexivity.
    + rewrite bool_decide_false by (apply Hnw; left; reflexivity).
      apply IH. intros w Hw. apply Hnw. right. exact Hw.
Qed.

(* ------------------------------------------------------------------ *)
(** ** Reading events after a write *)

Lemma view_eq_sym t1 t2 : view_eq t1 t2 -> view_eq t2 t1.
Proof. intros (H1 & H2 & H3). repeat split; congruence. Qed.

Lemma set_env_same t env : t_env t = Some env -> set_env env t = t.
Proof. destruct t; cbn. intros ->. reflexivity. Qed.

Lemma view_eq_set_env t env env' :
  t_env t = Some env -> env_factors env' = env_factors env -> view_eq t (set_env env' t).
Proof. intros He Hf. repeat split; cbn. rewrite He. cbn. congruence. Qed.

Lemma be64_shiftTime_inj a b : be64 (shiftTime a) = be64 (shiftTime b) -> shiftTime a = shiftTime b.
Proof.
  intros H. apply (f_equal read_be64) in H. rewrite !read_be64_be64, !shiftTime_wrap in H. exact H.
Qed.

Lemma getAt_state i key p env : snd (getAt i key p env) = env.
Proof.
  unfold getAt, shard_dbi, bind, get, ret, fail, crash. cbn.
  destruct (env_shards env !! i); [|reflexivity]. cbn. repeat case_match; reflexivity.
Qed.

Lemma Respects_mapM {A B} (f : A -> ST Table B) :
  (forall x, Respects (f x)) -> forall l, Respects (mapM f l).
Proof.
  intros Hf l. apply Respects_of2. induction l as [|x l IH]; cbn; [apply Respects2_ret|].
  apply Respects2_bind; [apply Hf|]. intros y.
  apply Respects2_bind; [exact IH|]. intros ys. apply Respects2_ret.
Qed.

(** [getRawEvent] on an open table with a shard count: one [getAt]. *)
Definition raw_of (o : outcome (option StoredValue)) : outcome (option rawEvent) :=
  match o with
  | Ok None => Ok None
  | Ok (Some v) => Ok (Some (unmarshal v))
  | Err e => Err e
  | Panic msg => Panic msg
  end.

Lemma getRawEvent_run id ts t env :
  t_env t = Some env -> id <> "" -> t_shardCount t <> 0 ->
  getRawEvent id ts t = (raw_of (fst (getAt (Z.rem (hashLocal id) (t_shardCount t)) id (be64 ts) env)), t).
Proof.
  intros He Hid Hsc. unfold getRawEvent. rewrite bool_decide_false by exact Hid.
  rewrite (bind_ok _ _ _ _ _ (shardIndex_run id t Hsc)). unfold txn at 1, bind at 1. rewrite He.
  pose proof (getAt_state (Z.rem (hashLocal id) (t_shardCount t)) id (be64 ts) env) as Hs.
  destruct (getAt _ id _ env) as [[[v|]|e|msg] env']; reflexivity.
Qed.

Lemma getRawEvent_empty ts t : getRawEvent "" ts t = (Err ErrObjectIDRequired, t).
Proof. reflexivity. Qed.

(** [GetEvent] reads the raw event, then decodes it through the view. *)
Lemma GetEvent_frame id ts t t' :
  t_name t' = t_name t -> opened t' = opened t -> view_eq t t' ->
  fst (getRawEvent id (shiftTime ts) t') = fst (getRawEvent id (shiftTime ts) t) ->
  fst (GetEvent id ts t') = fst (GetEvent id ts t).
Proof.
  intros Hn Ho Hv Hr. unfold GetEvent, check_open, bind at 1 2 5 6, get. cbn.
  rewrite Ho, Hn. destruct (opened t); [|reflexivity]. cbn.
  pose proof (getRawEvent_state id (shiftTime ts) t) as S1.
  pose proof (getRawEvent_state id (shiftTime ts) t') as S2.
  unfold bind. destruct (getRawEvent id (shiftTime ts) t') as [o' s'], (getRawEvent id (shiftTime ts) t) as [o s].
  cbn in *. subst o' s s'. destruct o as [[r|]|e|msg]; try reflexivity.
  destruct (toEvent_respects r t' t (view_eq_sym _ _ Hv)) as [E _].
  destruct (toEvent r t') as [a' s'], (toEvent r t) as [a s]. cbn in E. subst a'.
  destruct a; reflexivity.
Qed.

(** The same for [GetEvents]. *)
Lemma GetEvents_frame id t t' :
  t_name t' = t_name t -> opened t' = opened t -> view_eq t t' ->
  snd (getRawEvents id t') = t' -> snd (getRawEvents id t) = t ->
  fst (getRawEvents id t') = fst (getRawEvents id t) ->
  fst (GetEvents id t') = fst (GetEvents id t).
Proof.
  intros Hn Ho Hv S2 S1 Hr. unfold GetEvents, check_open, bind at 1 2 4 5, get. cbn.
  rewrite Ho, Hn. destruct (opened t); [|reflexivity]. cbn.
  unfold bind. destruct (getRawEvents id t') as [o' s'], (getRawEvents id t) as [o s].
  cbn in *. subst o' s s'. destruct o as [rs|e|msg]; try reflexivity.
  exact (proj1 (Respects_mapM toEvent toEvent_respects rs t' t (view_eq_sym _ _ Hv))).
Qed.

Lemma getRawEvents_state id t : snd (getRawEvents id t) = t.
Proof.
  unfold getRawEvents. destruct (bool_decide (id = "")); [reflexivity|].
  unfold shardIndex, bind, get, ret, crash. cbn.
  destruct (bool_decide (t_shardCount t = 0)); [reflexivity|]. cbn.
  unfold txn. destruct (t_env t) as [env|]; [|reflexivity].
  destruct (getAll _ id env) as [[[v|]|e|msg] env']; reflexivity.
Qed.

Lemma getAll_lookup i key env env2 :
  fmap (lookup key) (env_shards env2 !! i) = fmap (lookup key) (env_shards env !! i) ->
  fst (getAll i key env2) = fst (getAll i key env).
Proof.
  intros H. unfold getAll, shard_dbi, bind, get, ret, fail, crash. cbn.
  destruct (env_shards env2 !! i) as [d2|], (env_shards env !! i) as [d|];
    cbn in H; try discriminate; [|reflexivity].
  injection H as H. rewrite H. repeat case_match; reflexivity.
Qed.

Lemma getRawEvents_env id t env env2 :
  t_env t = Some env ->
  (forall i, fst (getAll i id env2) = fst (getAll i id env)) ->
  fst (getRawEvents id (set_env env2 t)) = fst (getRawEvents id t).
Proof.
  intros He Hg. unfold getRawEvents. destruct (bool_decide (id = "")); [reflexivity|].
  unfold shardIndex, bind, get, ret, crash. cbn.
  destruct (bool_decide (t_shardCount t = 0)); [reflexivity|]. cbn.
  unfold txn. cbn. rewrite He.
  specialize (Hg (Z.rem (hashLocal id) (t_shardCount t))).
  destruct (getAll _ id env2) as [o2 s2], (getAll _ id env) as [o1 s1].
  cbn in Hg. subst o2. destruct o1 as [[v|]|e|msg]; reflexivity.
Qed.

(* ------------------------------------------------------------------ *)
(** ** What [del] changes *)

Lemma del_effect i key env env' :
  del i key env = (Ok tt, env') ->
  key <> "" /\ env_factors env' = env_factors env /\
  exists d, env_shards env !! i = Some d /\
    env_shards env' = <[i := delete key d]> (env_shards env).
Proof.
  unfold del, shard_dbi, bind, get, put, ret, fail; cbn.
  destruct (env_shards env !! i) as [d|] eqn:Hd; cbn; [|discriminate].
  destruct (bool_decide (key = "")) eqn:Hk; [discriminate|]. apply bool_decide_eq_false in Hk.
  destruct (d !! key) as [l|] eqn:Hdk.
  - destruct (env_full env); [discriminate|]. intros H; injection H as <-.
    split; [exact Hk|]. split; [reflexivity|]. exists d. split; [reflexivity|].
    unfold set_shard. cbn. rewrite Hd. reflexivity.
  - intros H; injection H as <-. split; [exact Hk|]. split; [reflexivity|].
    exists d. split; [reflexivity|]. rewrite delete_id by exact Hdk. symmetry. apply insert_id. exact Hd.
Qed.

Lemma delAt_none i key p env :
  fst (getAt i key p env) = Ok None -> delAt i key p env = (Ok tt, env).
Proof.
  unfold getAt, delAt, shard_dbi, bind, get, ret, fail, crash. cbn.
  destruct (env_shards env !! i) as [d|]; cbn; [|discriminate].
  destruct (bool_decide (key = "")); cbn; [discriminate|].
  destruct (d !! key) as [l|]; [|reflexivity].
  destruct (get_both_range p l) as [v|]; [|reflexivity].
  destruct (has_prefix v p); [discriminate|reflexivity].
Qed.

(* ------------------------------------------------------------------ *)
(** ** Batches of events and the open check *)

Lemma foldM_app {S A B} (f : B -> A -> ST S B) l1 l2 acc s :
  foldM f acc (l1 ++ l2) s = bind (foldM f acc l1) (fun b => foldM f b l2) s.
Proof.
  revert acc s. induction l1 as [|x l1 IH]; intros acc s; cbn; [reflexivity|].
  unfold bind at 1 2 3. destruct (f acc x s) as [[b|e|msg] s1]; [|reflexivity|reflexivity].
  apply IH.
Qed.

Definition OpenKeeps {A} (m : ST Table A) : Prop := forall t, opened (snd (m t)) = opened t.

Lemma OpenKeeps_of_Keeps {A} (m : ST Table A) : Keeps m -> OpenKeeps m.
Proof.
  intros H t. destruct (H t) as [_ He]. unfold opened.
  destruct (t_env (snd (m t))), (t_env t); cbn in He; congruence.
Qed.

Lemma OpenKeeps_bind {A B} (m : ST Table A) (k : A -> ST Table B) :
  OpenKeeps m -> (forall a, OpenKeeps (k a)) -> OpenKeeps (bind m k).
Proof.
  intros Hm Hk t. unfold bind. specialize (Hm t).
  destruct (m t) as [[a|e|msg] s]; cbn in *; auto. rewrite Hk. exact Hm.
Qed.

Lemma OpenKeeps_txn {A} ro (fn : ST Env A) : OpenKeeps (txn ro fn).
Proof.
  intros t. unfold txn. destruct (t_env t) as [env|] eqn:He; [|reflexivity].
  destruct (fn env) as [[a|e|msg] env']; try reflexivity.
  destruct ro; [reflexivity|]. unfold opened. cbn. rewrite He. reflexivity.
Qed.

Lemma OpenKeeps_insertEvent id e : OpenKeeps (insertEvent id e).
Proof.
  unfold insertEvent. destruct (bool_decide (id = "")); [intros t; reflexivity|].
  apply OpenKeeps_bind; [apply OpenKeeps_of_Keeps, Keeps_toRawEvent|]. intros r.
  apply OpenKeeps_bind.
  - intros t. unfold catch_err. pose proof (getRawEvent_state id (r_timestamp r) t) as S.
    destruct (getRawEvent id (r_timestamp r) t) as [[a|er|msg] s]; cbn in *; congruence.
  - intros cur. apply OpenKeeps_bind; [|intros; apply OpenKeeps_txn].
    intros t. unfold shardIndex, bind, get, ret, crash. cbn.
    destruct (bool_decide (t_shardCount t = 0)); reflexivity.
Qed.

Lemma check_open_closed t : opened t = false -> check_open t = (Err (ErrTableNotOpen (t_name t)), t).
Proof. intros H. unfold check_open, bind, get, fail. cbn. rewrite H. reflexivity. Qed.

Lemma closed_bind {B} (k : unit -> ST Table B) t :
  opened t = false -> bind check_open k t = (Err (ErrTableNotOpen (t_name t)), t).
Proof. intros H. unfold bind at 1. rewrite check_open_closed by exact H. reflexivity. Qed.

(* ------------------------------------------------------------------ *)
(** ** Events: deleting, inserting, batches *)

Lemma DeleteEvent_run id ts t t' :
  DeleteEvent id ts t = (Ok tt, t') ->
  exists env env', t_env t = Some env /\ t_shardCount t <> 0 /\
    delAt (Z.rem (hashLocal id) (t_shardCount t)) id (be64 (shiftTime ts)) env = (Ok tt, env') /\
    t' = set_env env' t.
Proof.
  intros H. apply bind_ok_inv in H as (u & t0 & Hchk & H).
  apply check_open_inv in Hchk as [-> _].
  apply bind_ok_inv in H as (i & t1 & Hsi & H).
  apply shardIndex_inv in Hsi as (-> & Hsc & ->).
  apply txn_inv in H as (env & env' & He & Hd & ->). eauto 6.
Qed.

(** X1: on a well-formed table, a successful [DeleteEvent id ts] with a
    non-empty [id] keeps the table well formed, leaves no event of [id] at
    that instant, and leaves every other (object, instant) pair reading as
    before. *)
Theorem delete_event_frame id ts t t' :
  table_wf t -> id <> "" -> DeleteEvent id ts t = (Ok tt, t') ->
  table_wf t' /\ fst (GetEvent id ts t') = Ok None /\
  forall id' ts', (id' <> id \/ shiftTime ts' <> shiftTime ts) ->
    fst (GetEvent id' ts' t') = fst (GetEvent id' ts' t).
Proof.
  intros Hwf Hid Hrun.
  destruct (DeleteEvent_run _ _ _ _ Hrun) as (env & env' & He & Hsc & Hdel & ->).
  unfold table_wf in Hwf. rewrite He in Hwf.
  destruct (delAt_effect _ _ _ _ _ Hwf Hid (be64_length _) Hdel) as [Hst (d' & Hd' & Hn)].
  pose proof (shard_step_wf _ _ _ _ _ Hwf Hst) as Hwf'.
  assert (Ho : opened (set_env env' t) = true) by reflexivity.
  split; [exact Hwf'|]. split.
  - unfold GetEvent. rewrite (bind_ok _ _ _ _ _ (check_open_run _ Ho)). cbv beta.
    unfold bind at 1. rewrite (getRawEvent_run id (shiftTime ts) (set_env env' t) env' eq_refl Hid Hsc).
    cbn [t_shardCount set_env].
    rewrite (getAt_find _ id _ env' d' Hd' Hid (fun l Hl => Hwf' _ _ _ _ Hd' Hl) (be64_length _)).
    rewrite Hn. reflexivity.
  - intros id' ts' Hne. apply GetEvent_frame; try reflexivity.
    + unfold opened. rewrite He. reflexivity.
    + apply (view_eq_set_env t env env' He). apply Hst.
    + destruct (decide (id' = "")) as [->|Hid']; [reflexivity|].
      rewrite (getRawEvent_run id' _ (set_env env' t) env' eq_refl Hid' Hsc).
      rewrite (getRawEvent_run id' _ t env He Hid' Hsc). cbn [fst t_shardCount set_env].
      f_equal. apply (shard_step_getAt _ _ _ _ _ _ _ _ Hwf Hst Hid' (be64_length _)).
      destruct Hne as [Hne|Hne]; [tauto|]. right; right. intros E. apply Hne.
      exact (be64_shiftTime_inj _ _ E).
Qed.

Lemma tbl_baz_ins_wf : table_wf tbl_baz_ins.
Proof.
  unfold table_wf.
  assert (E : fmap env_shards (t_env tbl_baz_ins) =
              Some {[0 := {[ "obj" := [mkStored (be64 0) {[1 := VInt 0]}] ]}]})
    by (vm_compute; reflexivity).
  revert E. destruct (t_env tbl_baz_ins) as [env|]; [|intros; exact I].
  intros E. cbn in E. injection E as E.
  intros i d key l Hd Hl. rewrite E in Hd. apply lookup_singleton_Some in Hd as [_ <-].
  apply lookup_singleton_Some in Hl as [_ <-].
  split; [repeat constructor|]. constructor; [reflexivity|constructor].
Qed.

Lemma delete_event_frame_witness :
  table_wf tbl_baz_ins /\ DeleteEvent "obj" 0 tbl_baz_ins = (Ok tt, tbl_baz_del) /\
  fst (GetEvent "obj" 0 tbl_baz_del) = Ok None.
Proof.
  assert (H : DeleteEvent "obj" 0 tbl_baz_ins = (Ok tt, tbl_baz_del)) by (vm_compute; reflexivity).
  split; [exact tbl_baz_ins_wf|]. split; [exact H|].
  exact (proj1 (proj2 (delete_event_frame "obj" 0 tbl_baz_ins tbl_baz_del tbl_baz_ins_wf
                         ltac:(discriminate) H))).
Defined.

Lemma getRawEvent_ok_open id ts t o :
  fst (getRawEvent id ts t) = Ok o ->
  exists env, t_env t = Some env /\ id <> "" /\ t_shardCount t <> 0.
Proof.
  intros H. unfold getRawEvent, shardIndex, bind, get, ret, fail, crash, txn in H.
  destruct (bool_decide (id = "")) eqn:Hid; [discriminate H|]. cbn in H.
  destruct (bool_decide (t_shardCount t = 0)) eqn:Hsc; [cbn in H; discriminate H|]. cbn in H.
  destruct (t_env t) as [env|]; [|cbn in H; discriminate H].
  apply bool_decide_eq_false in Hid, Hsc. eauto.
Qed.

(** X2: deleting an event that is not there succeeds and changes nothing,
    even on a full memory map: [delAt] finds no value and writes nothing. *)
Theorem delete_event_absent id ts t :
  fst (getRawEvent id (shiftTime ts) t) = Ok None -> DeleteEvent id ts t = (Ok tt, t).
Proof.
  intros H. destruct (getRawEvent_ok_open _ _ _ _ H) as (env & He & Hid & Hsc).
  rewrite (getRawEvent_run id _ t env He Hid Hsc) in H. cbn [fst] in H.
  assert (Hg : fst (getAt (Z.rem (hashLocal id) (t_shardCount t)) id (be64 (shiftTime ts)) env) = Ok None)
    by (destruct (fst (getAt _ _ _ env)) as [[v|]|e|msg]; cbn in H; congruence).
  unfold DeleteEvent.
  assert (Ho : opened t = true) by (unfold opened; rewrite He; reflexivity).
  rewrite (bind_ok _ _ _ _ _ (check_open_run t Ho)). cbv beta zeta.
  rewrite (bind_ok _ _ _ _ _ (shardIndex_run id t Hsc)).
  unfold txn. rewrite He, (delAt_none _ _ _ _ Hg). rewrite set_env_same by exact He. reflexivity.
Qed.

Lemma delete_event_absent_witness :
  fst (getRawEvent "obj" (shiftTime 1000000000) tbl_baz_ins) = Ok None /\
  DeleteEvent "obj" 1000000000 tbl_baz_ins = (Ok tt, tbl_baz_ins).
Proof.
  assert (H : fst (getRawEvent "obj" (shiftTime 1000000000) tbl_baz_ins) = Ok None)
    by (vm_compute; reflexivity).
  split; [exact H|]. exact (delete_event_absent "obj" 1000000000 tbl_baz_ins H).
Defined.

Lemma getAt_absent i key p env d :
  env_shards env !! i = Some d -> d !! key = None -> key <> "" -> getAt i key p env = (Ok None, env).
Proof.
  intros Hd Hk Hne. unfold getAt, shard_dbi, bind, get, ret, crash. cbn.
  rewrite Hd. cbn. rewrite bool_decide_false by exact Hne. rewrite Hk. reflexivity.
Qed.

Lemma getAll_absent i key env d :
  env_shards env !! i = Some d -> d !! key = None -> key <> "" -> getAll i key env = (Ok None, env).
Proof.
  intros Hd Hk Hne. unfold getAll, shard_dbi, bind, get, ret, crash. cbn.
  rewrite Hd. cbn. rewrite bool_decide_false by exact Hne. rewrite Hk. reflexivity.
Qed.

Lemma getRawEvents_run id t env :
  t_env t = Some env -> id <> "" -> t_shardCount t <> 0 ->
  getRawEvents id t =
    (match fst (getAll (Z.rem (hashLocal id) (t_shardCount t)) id env) with
     | Ok None => Ok []
     | Ok (Some vs) => Ok (map unmarshal vs)
     | Err e => Err e
     | Panic msg => Panic msg
     end, t).
Proof.
  intros He Hid Hsc. unfold getRawEvents. rewrite bool_decide_false by exact Hid.
  rewrite (bind_ok _ _ _ _ _ (shardIndex_run id t Hsc)). unfold txn at 1, bind at 1. rewrite He.
  destruct (getAll _ id env) as [[[v|]|e|msg] env']; reflexivity.
Qed.

Lemma DeleteEvents_run id t t' :
  DeleteEvents id t = (Ok tt, t') ->
  exists env env', t_env t = Some env /\ t_shardCount t <> 0 /\
    del (Z.rem (hashLocal id) (t_shardCount t)) id env = (Ok tt, env') /\
    t' = set_env env' t.
Proof.
  intros H. apply bind_ok_inv in H as (u & t0 & Hchk & H).
  apply check_open_inv in Hchk as [-> _].
  apply bind_ok_inv in H as (i & t1 & Hsi & H).
  apply shardIndex_inv in Hsi as (-> & Hsc & ->).
  apply txn_inv in H as (env & env' & He & Hd & ->). eauto 6.
Qed.

(** X3: a successful [DeleteEvents id] on a well-formed table keeps it well
    formed, leaves [id] with no event at all, and leaves the events of
    every other object as they were. *)
Theorem delete_events_effect id t t' :
  table_wf t -> DeleteEvents id t = (Ok tt, t') ->
  table_wf t' /\ fst (GetEvents id t') = Ok [] /\
  (forall ts, fst (GetEvent id ts t') = Ok None) /\
  forall id', id' <> id ->
    fst (GetEvents id' t') = fst (GetEvents id' t) /\
    forall ts, fst (GetEvent id' ts t') = fst (GetEvent id' ts t).
Proof.
  intros Hwf Hrun.
  destruct (DeleteEvents_run _ _ _ Hrun) as (env & env' & He & Hsc & Hdel & ->).
  destruct (del_effect _ _ _ _ Hdel) as (Hid & Hf & d & Hd & Hsh).
  unfold table_wf in Hwf. rewrite He in Hwf.
  set (i := Z.rem (hashLocal id) (t_shardCount t)) in *.
  assert (Hd' : env_shards env' !! i = Some (delete id d)) by (rewrite Hsh; apply lookup_insert_eq).
  assert (Hwf' : shards_wf env').
  { intros j dj k l Hj Hl. rewrite Hsh in Hj. destruct (decide (j = i)) as [->|Hji].
    - rewrite lookup_insert_eq in Hj. injection Hj as <-.
      apply lookup_delete_Some in Hl as [_ Hl]. exact (Hwf _ _ _ _ Hd Hl).
    - rewrite lookup_insert_ne in Hj by congruence. exact (Hwf _ _ _ _ Hj Hl). }
  assert (Hsame : forall id', id' <> id -> forall j,
            fmap (lookup id') (env_shards env' !! j) = fmap (lookup id') (env_shards env !! j)).
  { intros id' Hne j. rewrite Hsh. destruct (decide (j = i)) as [->|Hji].
    - rewrite lookup_insert_eq, Hd. cbn. rewrite lookup_delete_ne by congruence. reflexivity.
    - rewrite lookup_insert_ne by congruence. reflexivity. }
  assert (Ho : opened (set_env env' t) = true) by reflexivity.
  assert (Ho' : opened (set_env env' t) = opened t) by (unfold opened; rewrite He; reflexivity).
  assert (Hv : view_eq t (set_env env' t)) by exact (view_eq_set_env t env env' He Hf).
  split; [exact Hwf'|]. split; [|split].
  - unfold GetEvents. rewrite (bind_ok _ _ _ _ _ (check_open_run _ Ho)). cbv beta.
    unfold bind at 1. rewrite (getRawEvents_run id (set_env env' t) env' eq_refl Hid Hsc).
    cbn [t_shardCount set_env]. fold i.
    rewrite (getAll_absent _ id env' _ Hd' (lookup_delete_eq _ _) Hid). reflexivity.
  - intros ts. unfold GetEvent. rewrite (bind_ok _ _ _ _ _ (check_open_run _ Ho)). cbv beta.
    unfold bind at 1. rewrite (getRawEvent_run id _ (set_env env' t) env' eq_refl Hid Hsc).
    cbn [t_shardCount set_env]. fold i.
    rewrite (getAt_absent _ id _ env' _ Hd' (lookup_delete_eq _ _) Hid). reflexivity.
  - intros id' Hne. split.
    + apply GetEvents_frame; try reflexivity; auto using getRawEvents_state.
      apply (getRawEvents_env id' t env env' He). intros j. apply getAll_lookup. apply Hsame; exact Hne.
    + intros ts. apply GetEvent_frame; try reflexivity; auto.
      destruct (decide (id' = "")) as [->|Hid']; [reflexivity|].
      rewrite (getRawEvent_run id' _ (set_env env' t) env' eq_refl Hid' Hsc).
      rewrite (getRawEvent_run id' _ t env He Hid' Hsc). cbn [fst t_shardCount set_env].
      f_equal. apply getAt_lookup. apply Hsame; exact Hne.
Qed.

Lemma delete_events_effect_witness :
  table_wf tbl_baz_ins /\
  DeleteEvents "obj" tbl_baz_ins = (Ok tt, snd (DeleteEvents "obj" tbl_baz_ins)) /\
  fst (GetEvents "obj" (snd (DeleteEvents "obj" tbl_baz_ins))) = Ok [].
Proof.
  assert (H : DeleteEvents "obj" tbl_baz_ins = (Ok tt, snd (DeleteEvents "obj" tbl_baz_ins)))
    by (vm_compute; reflexivity).
  split; [exact tbl_baz_ins_wf|]. split; [exact H|].
  exact (proj1 (proj2 (delete_events_effect "obj" tbl_baz_ins _ tbl_baz_ins_wf H))).
Defined.

(** X4: a successful [InsertEvent id e] on a well-formed table keeps it
    well formed and writes only the slot of [id] at [e]'s instant: every
    other (object, instant) pair reads the same raw event as before. *)
Theorem insert_event_frame id e t t' :
  table_wf t -> InsertEvent id e t = (Ok tt, t') ->
  table_wf t' /\
  forall id' ts', (id' <> id \/ shiftTime ts' <> shiftTime (e_Timestamp e)) ->
    fst (getRawEvent id' (shiftTime ts') t') = fst (getRawEvent id' (shiftTime ts') t).
Proof.
  intros Hwf Hrun.
  apply bind_ok_inv in Hrun as (u & t0 & Hchk & Hins).
  apply check_open_inv in Hchk as [-> Hop].
  unfold insertEvent in Hins.
  destruct (bool_decide (id = "")) eqn:Hid; [discriminate|]. apply bool_decide_eq_false in Hid.
  apply bind_ok_inv in Hins as (r & t1 & Hraw & Hins).
  pose proof (Keeps_toRawEvent e t) as Hkeep. rewrite Hraw in Hkeep. cbn in Hkeep.
  pose proof (toRawEvent_timestamp _ _ _ _ Hraw) as Hts.
  apply bind_ok_inv in Hins as (cur & t2 & Hcur & Hins).
  assert (Ht2 : t2 = t1).
  { pose proof (getRawEvent_state id (r_timestamp r) t1) as S. unfold catch_err in Hcur.
    destruct (getRawEvent id (r_timestamp r) t1) as [[a|er|msg] s]; cbn in S;
      injection Hcur; congruence. }
  subst t2. cbv zeta in Hins.
  set (m := match cur with
            | Some (Some c) => mkRaw (r_timestamp r) (r_data r ∪ r_data c)
            | _ => r end) in Hins.
  assert (Hm : r_timestamp m = r_timestamp r) by (subst m; destruct cur as [[c|]|]; reflexivity).
  apply bind_ok_inv in Hins as (i & t3 & Hsi & Htx).
  apply shardIndex_inv in Hsi as (-> & Hsc & ->).
  apply txn_inv in Htx as (env1 & env' & Henv1 & Hput & ->).
  unfold opened in Hop. destruct (t_env t) as [env0|] eqn:Henv0; [|discriminate].
  pose proof Hkeep as [Hsc1 Hsh]. rewrite Henv0, Henv1 in Hsh. cbn in Hsh. injection Hsh as Hsh.
  unfold table_wf in Hwf. rewrite Henv0 in Hwf.
  assert (Hwf1 : shards_wf env1) by (intros j d k l Hd Hl; rewrite Hsh in Hd; exact (Hwf _ _ _ _ Hd Hl)).
  assert (Hv : sv_prefix (marshal_raw m) = be64 (r_timestamp m)) by reflexivity.
  destruct (putAt_effect _ _ _ _ _ _ Hwf1 Hid (be64_length _) Hv Hput)
    as [Hst _].
  split; [exact (shard_step_wf _ _ _ _ _ Hwf1 Hst)|].
  intros id' ts' Hne. rewrite <- (getRawEvent_keep id' (shiftTime ts') t t1 Hkeep).
  destruct (decide (id' = "")) as [->|Hid']; [reflexivity|].
  rewrite (getRawEvent_run id' _ (set_env env' t1) env' eq_refl Hid' Hsc).
  rewrite (getRawEvent_run id' _ t1 env1 Henv1 Hid' Hsc). cbn [fst t_shardCount set_env].
  f_equal. apply (shard_step_getAt _ _ _ _ _ _ _ _ Hwf1 Hst Hid' (be64_length _)).
  destruct Hne as [Hne|Hne]; [tauto|]. right; right. intros E. apply Hne.
  rewrite Hm, Hts in E. exact (be64_shiftTime_inj _ _ E).
Qed.

Lemma insert_event_frame_witness :
  table_wf tbl_baz /\ InsertEvent "obj" ev_baz tbl_baz = (Ok tt, tbl_baz_ins) /\
  fst (getRawEvent "other" (shiftTime 0) tbl_baz_ins) = fst (getRawEvent "other" (shiftTime 0) tbl_baz).
Proof.
  assert (H : InsertEvent "obj" ev_baz tbl_baz = (Ok tt, tbl_baz_ins)) by (vm_compute; reflexivity).
  assert (Hne : "other" <> "obj" \/ shiftTime 0 <> shiftTime (e_Timestamp ev_baz))
    by (left; discriminate).
  split; [exact tbl_baz_wf|]. split; [exact H|].
  exact (proj2 (insert_event_frame "obj" ev_baz tbl_baz tbl_baz_ins tbl_baz_wf H) "other" 0 Hne).
Defined.

Lemma OpenKeeps_foldM {A B} (f : B -> A -> ST Table B) :
  (forall acc x, OpenKeeps (f acc x)) -> forall l acc, OpenKeeps (foldM f acc l).
Proof.
  intros Hf l. induction l as [|x l IH]; intros acc; cbn; [intros t; reflexivity|].
  apply OpenKeeps_bind; auto.
Qed.

(** X5: [InsertEvents] of a concatenation is [InsertEvents] of the first
    list followed by [InsertEvents] of the second: the same outcome and
    the same table, errors and stops included. *)
Theorem insert_events_app id es1 es2 t :
  InsertEvents id (es1 ++ es2) t = (let* _ := InsertEvents id es1 in InsertEvents id es2) t.
Proof.
  destruct (opened t) eqn:Ho.
  2:{ unfold bind at 1. unfold InsertEvents. rewrite !closed_bind by exact Ho. reflexivity. }
  assert (Hrun : forall l s, opened s = true ->
            InsertEvents id l s = foldM (fun _ e => insertEvent id e) tt l s).
  { intros l s Hs. unfold InsertEvents. rewrite (bind_ok _ _ _ _ _ (check_open_run s Hs)). reflexivity. }
  rewrite (Hrun _ t Ho). unfold bind at 1. rewrite (Hrun _ t Ho), foldM_app. unfold bind at 1.
  pose proof (OpenKeeps_foldM (fun _ e => insertEvent id e)
                (fun _ e => OpenKeeps_insertEvent id e) es1 tt t) as Ho1.
  destruct (foldM _ tt es1 t) as [[[]|e|msg] t1]; [|reflexivity|reflexivity].
  cbn in Ho1. rewrite Ho in Ho1. symmetry. apply Hrun. exact Ho1.
Qed.

(** X6: on an open table the empty object id is refused with
    [ErrObjectIDRequired] and the table untouched by [GetEvent],
    [GetEvents], [InsertEvent] and a non-empty [InsertEvents]; an empty
    batch succeeds whatever the id. *)
Theorem empty_object_id t :
  opened t = true ->
  (forall ts, GetEvent "" ts t = (Err ErrObjectIDRequired, t)) /\
  GetEvents "" t = (Err ErrObjectIDRequired, t) /\
  (forall e, InsertEvent "" e t = (Err ErrObjectIDRequired, t)) /\
  (forall e es, InsertEvents "" (e :: es) t = (Err ErrObjectIDRequired, t)) /\
  (forall id, InsertEvents id [] t = (Ok tt, t)).
Proof.
  intros Ho. pose proof (check_open_run t Ho) as Hc.
  split; [|split; [|split; [|split]]].
  - intros ts. unfold GetEvent. rewrite (bind_ok _ _ _ _ _ Hc). reflexivity.
  - unfold GetEvents. rewrite (bind_ok _ _ _ _ _ Hc). reflexivity.
  - intros e. unfold InsertEvent. rewrite (bind_ok _ _ _ _ _ Hc). reflexivity.
  - intros e es. unfold InsertEvents. rewrite (bind_ok _ _ _ _ _ Hc). reflexivity.
  - intros id. unfold InsertEvents. rewrite (bind_ok _ _ _ _ _ Hc). reflexivity.
Qed.

Lemma empty_object_id_witness :
  opened tbl_baz = true /\ GetEvents "" tbl_baz = (Err ErrObjectIDRequired, tbl_baz).
Proof.
  assert (H : opened tbl_baz = true) by reflexivity.
  split; [exact H|]. exact (proj1 (proj2 (empty_object_id tbl_baz H))).
Defined.

(** X7: on a closed table every table operation that checks [opened] fails
    with [ErrTableNotOpen] naming the table, and changes nothing; an empty
    [InsertEvents] batch fails too. *)
Theorem closed_table_errors t :
  opened t = false ->
  let err {A} := (@Err A (ErrTableNotOpen (t_name t)), t) in
  (forall id ts, GetEvent id ts t = err) /\
  (forall id, GetEvents id t = err) /\
  (forall id e, InsertEvent id e t = err) /\
  (forall id es, InsertEvents id es t = err) /\
  (forall id ts, DeleteEvent id ts t = err) /\
  (forall id, DeleteEvents id t = err) /\
  Properties t = err /\ PropertiesByID t = err /\
  (forall name, Property_ name t = err) /\ (forall pid, PropertyByID pid t = err) /\
  (forall name dt tr, CreateProperty name dt tr t = err) /\
  (forall old new, RenameProperty old new t = err) /\
  (forall name, DeleteProperty name t = err).
Proof.
  intros Ho err. subst err. cbv beta.
  repeat split; intros; apply closed_bind; exact Ho.
Qed.

Lemma closed_table_errors_witness :
  opened (close tbl_baz_ins) = false /\
  DeleteEvents "obj" (close tbl_baz_ins) = (Err (ErrTableNotOpen "t"), close tbl_baz_ins).
Proof.
  assert (H : opened (close tbl_baz_ins) = false) by reflexivity.
  split; [exact H|].
  exact (proj1 (proj2 (proj2 (proj2 (proj2 (proj2 (closed_table_errors (close tbl_baz_ins) H)))))) "obj").
Defined.

(* ------------------------------------------------------------------ *)
(** ** Schema changes *)

Lemma bind_get {S B} (k : S -> ST S B) s : bind get k s = k s s.
Proof. reflexivity. Qed.

Lemma catch_ok_inv {S A} (m : ST S A) h s a s' :
  catch m h s = (Ok a, s') ->
  m s = (Ok a, s') \/ exists e s1, m s = (Err e, s1) /\ h e s1 = (Ok a, s').
Proof. unfold catch. destruct (m s) as [[x|e|msg] s1]; intros H; [left; exact H|right; eauto|discriminate]. Qed.

Lemma restore_never_ok {S A} (f : S -> S) e s a s' :
  (let* _ := modify f in @fail S A e) s <> (Ok a, s').
Proof. discriminate. Qed.

Lemma save_ok t u t' :
  save t = (Ok u, t') ->
  exists env, t_env t = Some env /\ env_full env = false /\
    t' = set_env (mkEnv false (Some (marshal_meta t)) (env_shards env) (env_factors env)) t.
Proof.
  unfold save. rewrite bind_get. unfold txn. destruct (t_env t) as [env|]; [|discriminate].
  unfold meta_put. rewrite bind_get. destruct (env_full env) eqn:Hf; [discriminate|].
  cbn. intros H; injection H as _ <-. exists env. rewrite Hf. auto.
Qed.

Lemma save_full t env :
  t_env t = Some env -> env_full env = true -> save t = (Err ErrMapFull, t).
Proof.
  intros He Hf. unfold save. rewrite bind_get. unfold txn. rewrite He.
  unfold meta_put. rewrite bind_get, Hf. reflexivity.
Qed.

Lemma marshal_meta_set_env env t : marshal_meta (set_env env t) = marshal_meta t.
Proof. reflexivity. Qed.


Lemma CreateProperty_ok_inv name dt tr t p t' :
  CreateProperty name dt tr t = (Ok p, t') ->
  t_properties t !! name = None /\ Validate (mkProperty 0 name dt tr) = None /\
  p = mkProperty (if tr then t_maxTransientID t - 1 else t_maxPermanentID t + 1) name dt tr /\
  t_maxPermanentID t' = (if tr then t_maxPermanentID t else t_maxPermanentID t + 1) /\
  t_maxTransientID t' = (if tr then t_maxTransientID t - 1 else t_maxTransientID t) /\
  t_properties t' = <[name := p]> (t_properties t) /\
  t_propertiesByID t' = <[p_ID p := p]> (t_propertiesByID t) /\
  t_caches t' = (if bool_decide (dt = Factor)
                 then <[p_ID p := newCache FactorCacheSize]> (t_caches t) else t_caches t) /\
  exists env', t_env t' = Some env' /\ env_meta env' = Some (marshal_meta t') /\
    (dt = Factor -> is_Some (env_factors env' !! p_ID p)).
Proof.
  unfold CreateProperty. intros H.
  apply bind_ok_inv in H as (u & t0 & Hc & H). apply check_open_inv in Hc as [-> _].
  rewrite bind_get in H.
  destruct (bool_decide (is_Some (t_properties t !! name))) eqn:Hex; [discriminate|].
  apply bool_decide_eq_false in Hex. apply eq_None_not_Some in Hex.
  destruct (Validate (mkProperty 0 name dt tr)) as [e|] eqn:Hv; [discriminate|].
  apply bind_ok_inv in H as (id & t1 & Hid & H).
  set (id0 := if tr then t_maxTransientID t - 1 else t_maxPermanentID t + 1).
  assert (Ht1 : id = id0 /\
                t1 = set_ids (if tr then t_maxPermanentID t else t_maxPermanentID t + 1)
                             (if tr then t_maxTransientID t - 1 else t_maxTransientID t) t).
  { subst id0. destruct tr; cbn in Hid; injection Hid as <- <-; auto. }
  destruct Ht1 as [-> ->]. cbn [with_id p_DataType p_Name p_Transient] in H.
  apply bind_ok_inv in H as (u1 & t2 & Hf & H).
  rewrite bind_get in H.
  apply bind_ok_inv in H as (u2 & t3 & Hm & H). unfold modify in Hm. injection Hm as _ <-.
  apply bind_ok_inv in H as (u3 & t4 & Hs & H).
  apply catch_ok_inv in Hs as [Hs|(e & s1 & _ & Hh)]; [|exfalso; exact (restore_never_ok _ _ _ _ _ Hh)].
  destruct (save_ok _ _ _ Hs) as (env & He & Hfull & ->).
  assert (Ht2 : t_properties t2 = t_properties t /\ t_propertiesByID t2 = t_propertiesByID t /\
                t_caches t2 = t_caches t /\ t_maxPermanentID t2 = (if tr then t_maxPermanentID t else t_maxPermanentID t + 1) /\
                t_maxTransientID t2 = (if tr then t_maxTransientID t - 1 else t_maxTransientID t) /\
                (dt = Factor -> exists env2, t_env t2 = Some env2 /\ is_Some (env_factors env2 !! id0))).
  { destruct (bool_decide (dt = Factor)) eqn:Hfac.
    - apply bool_decide_eq_true in Hfac.
      apply txn_inv in Hf as (env1 & env2 & _ & Hcr & ->).
      repeat split; try reflexivity. intros _. exists env2. split; [reflexivity|].
      unfold factor_dbi_create in Hcr. rewrite bind_get in Hcr.
      destruct (env_factors env1 !! id0) eqn:E1.
      + injection Hcr as _ <-. rewrite E1. eexists; reflexivity.
      + destruct (env_full env1); [discriminate|]. injection Hcr as _ <-. cbn.
        rewrite lookup_insert_eq. eexists; reflexivity.
    - apply bool_decide_eq_false in Hfac. injection Hf as _ <-.
      repeat split; try reflexivity. intros E; contradiction. }
  destruct Ht2 as (Hp2 & Hb2 & Hc2 & Hmp & Hmt & Hfac2).
  cbn [set_maps set_env t_properties t_propertiesByID] in He.
  destruct (bool_decide (dt = Factor)) eqn:Hfac; apply bind_ok_inv in H as (u4 & t5 & Hcache & H);
    unfold ret in H; injection H as <- <-.
  - unfold modify in Hcache. injection Hcache as _ <-.
    apply bool_decide_eq_true in Hfac.
    destruct (Hfac2 Hfac) as (env2 & Henv2 & Hin).
    repeat split; try assumption; cbn; try congruence.
    exists (mkEnv false (Some (marshal_meta (set_maps (<[name:=mkProperty id0 name dt tr]> (t_properties t2))
                  (<[id0:=mkProperty id0 name dt tr]> (t_propertiesByID t2)) t2))) (env_shards env) (env_factors env)).
    split; [reflexivity|]. split; [unfold marshal_meta; cbn; rewrite Hp2; reflexivity|].
    intros _. cbn. cbn in He. rewrite He in Henv2. injection Henv2 as ->. exact Hin.
  - unfold ret in Hcache. injection Hcache as _ <-.
    repeat split; try assumption; cbn; try congruence.
    eexists. split; [reflexivity|]. split; [unfold marshal_meta; cbn; rewrite Hp2; reflexivity|].
    intros E. apply bool_decide_eq_false in Hfac. contradiction.
Qed.

(** X8: what a successful [CreateProperty] does: the name was free and
    valid; the property gets the next permanent id (counting up) or the
    next transient id (counting down); both maps gain it; a factor
    property gets an empty cache and a factor DBI; the saved meta is the
    new table's. *)
Theorem create_property_success name dt tr t p t' :
  CreateProperty name dt tr t = (Ok p, t') ->
  t_properties t !! name = None /\ Validate (mkProperty 0 name dt tr) = None /\
  p = mkProperty (if tr then t_maxTransientID t - 1 else t_maxPermanentID t + 1) name dt tr /\
  t_maxPermanentID t' = (if tr then t_maxPermanentID t else t_maxPermanentID t + 1) /\
  t_maxTransientID t' = (if tr then t_maxTransientID t - 1 else t_maxTransientID t) /\
  t_properties t' = <[name := p]> (t_properties t) /\
  t_propertiesByID t' = <[p_ID p := p]> (t_propertiesByID t) /\
  t_caches t' = (if bool_decide (dt = Factor)
                 then <[p_ID p := newCache FactorCacheSize]> (t_caches t) else t_caches t) /\
  exists env', t_env t' = Some env' /\ env_meta env' = Some (marshal_meta t') /\
    (dt = Factor -> is_Some (env_factors env' !! p_ID p)).
Proof. exact (CreateProperty_ok_inv name dt tr t p t'). Qed.

Lemma create_property_success_witness :
  CreateProperty "bar" Factor false tbl = (Ok (mkProperty 1 "bar" Factor false), tbl_bar) /\
  t_propertiesByID tbl_bar = {[1 := mkProperty 1 "bar" Factor false]}.
Proof.
  assert (H : CreateProperty "bar" Factor false tbl = (Ok (mkProperty 1 "bar" Factor false), tbl_bar))
    by (vm_compute; reflexivity).
  split; [exact H|].
  destruct (create_property_success _ _ _ _ _ _ H) as (_ & _ & _ & _ & _ & _ & Hb & _).
  rewrite Hb. reflexivity.
Defined.

(** X9: the schema checks fail with the table untouched: no counter is
    advanced and no map changes when [CreateProperty] meets a taken,
    empty or non-word name or an unknown data type, when [RenameProperty]
    meets a missing old name or a taken new one (renaming a property to
    its own name included), or when [DeleteProperty] meets a missing
    name. *)
Theorem schema_errors t :
  opened t = true ->
  (forall name dt tr, is_Some (t_properties t !! name) ->
     CreateProperty name dt tr t = (Err (ErrPropertyExists name), t)) /\
  (forall name dt tr, t_properties t !! name = None -> (name = "" \/ all_word name = false) ->
     CreateProperty name dt tr t = (Err ErrInvalidPropertyName, t)) /\
  (forall name dt tr, t_properties t !! name = None -> name <> "" -> all_word name = true ->
     dt ∉ [Factor; String_; Integer; Float; Boolean] ->
     CreateProperty name dt tr t = (Err ErrInvalidDataType, t)) /\
  (forall old new, t_properties t !! old = None ->
     RenameProperty old new t = (Err (ErrPropertyNotFound old), t)) /\
  (forall old new, is_Some (t_properties t !! old) -> is_Some (t_properties t !! new) ->
     RenameProperty old new t = (Err (ErrPropertyExists new), t)) /\
  (forall name, t_properties t !! name = None ->
     DeleteProperty name t = (Err (ErrPropertyNotFound name), t)).
Proof.
  intros Ho. pose proof (check_open_run t Ho) as Hc.
  split; [|split; [|split; [|split; [|split]]]].
  - intros name dt tr Hs. unfold CreateProperty. rewrite (bind_ok _ _ _ _ _ Hc), bind_get.
    rewrite bool_decide_true by exact Hs. reflexivity.
  - intros name dt tr Hn Hw. unfold CreateProperty. rewrite (bind_ok _ _ _ _ _ Hc), bind_get.
    rewrite Hn, bool_decide_false by (intros [? ?]; discriminate).
    unfold Validate. cbn [p_Name].
    replace (bool_decide (name = "") || negb (all_word name)) with true
      by (destruct Hw as [E|E]; rewrite E; [reflexivity|rewrite orb_true_r; reflexivity]).
    reflexivity.
  - intros name dt tr Hn Hne Hw Hdt. unfold CreateProperty. rewrite (bind_ok _ _ _ _ _ Hc), bind_get.
    rewrite Hn, bool_decide_false by (intros [? ?]; discriminate).
    unfold Validate. cbn [p_Name p_DataType].
    rewrite bool_decide_false by exact Hne. rewrite Hw. cbn.
    rewrite bool_decide_false by exact Hdt. reflexivity.
  - intros old new Hn. unfold RenameProperty. rewrite (bind_ok _ _ _ _ _ Hc), bind_get, Hn. reflexivity.
  - intros old new [q Hq] Hs. unfold RenameProperty. rewrite (bind_ok _ _ _ _ _ Hc), bind_get, Hq.
    rewrite bool_decide_true by exact Hs. reflexivity.
  - intros name Hn. unfold DeleteProperty. rewrite (bind_ok _ _ _ _ _ Hc), bind_get, Hn. reflexivity.
Qed.

Lemma schema_errors_witness :
  opened tbl_baz = true /\
  RenameProperty "baz" "baz" tbl_baz = (Err (ErrPropertyExists "baz"), tbl_baz).
Proof.
  assert (H : opened tbl_baz = true) by reflexivity.
  assert (Hs : is_Some (t_properties tbl_baz !! "baz")) by (vm_compute; eexists; reflexivity).
  split; [exact H|].
  exact (proj1 (proj2 (proj2 (proj2 (proj2 (schema_errors tbl_baz H))))) "baz" "baz" Hs Hs).
Defined.

(** X10: on a full memory map a [RenameProperty] or [DeleteProperty] that
    passes its checks fails with [MDB_MAP_FULL] and leaves the table
    exactly as it was: the maps are put back. *)
Theorem schema_change_full_map t env :
  t_env t = Some env -> env_full env = true ->
  (forall old new, is_Some (t_properties t !! old) -> t_properties t !! new = None ->
     RenameProperty old new t = (Err ErrMapFull, t)) /\
  (forall name, is_Some (t_properties t !! name) ->
     DeleteProperty name t = (Err ErrMapFull, t)).
Proof.
  intros He Hf. assert (Ho : opened t = true) by (unfold opened; rewrite He; reflexivity).
  pose proof (check_open_run t Ho) as Hc. split.
  - intros old new [q Hq] Hn. unfold RenameProperty. rewrite (bind_ok _ _ _ _ _ Hc), bind_get, Hq.
    rewrite Hn, bool_decide_false by (intros [? ?]; discriminate).
    unfold bind at 1, modify. unfold bind at 1, catch.
    rewrite (save_full (set_maps _ _ t) env He Hf). destruct t; reflexivity.
  - intros name [q Hq]. unfold DeleteProperty. rewrite (bind_ok _ _ _ _ _ Hc), bind_get, Hq.
    unfold bind at 1, modify. unfold catch.
    rewrite (save_full (set_maps _ _ t) env He Hf). destruct t; reflexivity.
Qed.

Lemma schema_change_full_map_witness :
  (exists env, t_env tbl_baz_full = Some env /\ env_full env = true) /\
  DeleteProperty "baz" tbl_baz_full = (Err ErrMapFull, tbl_baz_full).
Proof.
  assert (Hs : is_Some (t_properties tbl_baz_full !! "baz")) by (vm_compute; eexists; reflexivity).
  destruct (t_env tbl_baz_full) as [env|] eqn:He; [|discriminate He; vm_compute; reflexivity].
  assert (Hf : env_full env = true).
  { assert (E : fmap env_full (t_env tbl_baz_full) = Some true) by (vm_compute; reflexivity).
    rewrite He in E. injection E as E. exact E. }
  split; [exists env; split; [reflexivity|exact Hf]|].
  exact (proj2 (schema_change_full_map tbl_baz_full env He Hf) "baz" Hs).
Defined.

Lemma DeleteProperty_ok_inv name t t' :
  DeleteProperty name t = (Ok tt, t') ->
  exists p env env', t_properties t !! name = Some p /\
    t_env t = Some env /\ t_env t' = Some env' /\
    t_properties t' = delete name (t_properties t) /\
    t_propertiesByID t' = delete (p_ID p) (t_propertiesByID t) /\
    env_meta env' = Some (marshal_meta t') /\
    env_shards env' = env_shards env /\ env_factors env' = env_factors env /\
    t_caches t' = t_caches t.
Proof.
  unfold DeleteProperty. intros H.
  apply bind_ok_inv in H as (u & t0 & Hc & H). apply check_open_inv in Hc as [-> _].
  rewrite bind_get in H. destruct (t_properties t !! name) as [p|] eqn:Hp; [|discriminate].
  apply bind_ok_inv in H as (u2 & t2 & Hm & H). unfold modify in Hm. injection Hm as _ <-.
  apply catch_ok_inv in H as [H|(e & s1 & _ & Hh)]; [|exfalso; exact (restore_never_ok _ _ _ _ _ Hh)].
  destruct (save_ok _ _ _ H) as (env & He & Hfull & ->).
  exists p, env. eexists. split; [reflexivity|]. split; [exact He|]. split; [reflexivity|].
  repeat split; reflexivity.
Qed.

(** X11: what a successful [DeleteProperty name] does: the property
    existed; it leaves both maps (the by-ID entry under its own id); the
    saved meta is the new table's; the stored events, the factor DBIs and
    the caches are not touched. *)
Theorem delete_property_success name t t' :
  DeleteProperty name t = (Ok tt, t') ->
  exists p env env', t_properties t !! name = Some p /\
    t_env t = Some env /\ t_env t' = Some env' /\
    t_properties t' = delete name (t_properties t) /\
    t_propertiesByID t' = delete (p_ID p) (t_propertiesByID t) /\
    env_meta env' = Some (marshal_meta t') /\
    env_shards env' = env_shards env /\ env_factors env' = env_factors env /\
    t_caches t' = t_caches t.
Proof. exact (DeleteProperty_ok_inv name t t'). Qed.

Lemma delete_property_success_witness :
  DeleteProperty "baz" tbl_baz = (Ok tt, snd (DeleteProperty "baz" tbl_baz)) /\
  t_properties (snd (DeleteProperty "baz" tbl_baz)) = ∅.
Proof.
  assert (H : DeleteProperty "baz" tbl_baz = (Ok tt, snd (DeleteProperty "baz" tbl_baz)))
    by (vm_compute; reflexivity).
  split; [exact H|].
  destruct (delete_property_success _ _ _ H) as (p & env & env' & Hp & _ & _ & Hps & _).
  rewrite Hps. vm_compute. reflexivity.
Defined.

(* ------------------------------------------------------------------ *)
(** ** Factors and shards *)

(** X12: with a consistent factor DBI and cache, [Defactorize] of a
    non-zero index that the DBI does not hold fails with
    [ErrFactorNotFound] and changes nothing; index [0] is the empty
    string. *)
Theorem defactorize_unknown pid t env fd i :
  factor_inv pid t -> t_env t = Some env -> env_factors env !! pid = Some fd ->
  (i <> 0 -> fd_rev fd !! i = None -> Defactorize pid i t = (Err (ErrFactorNotFound pid i), t)) /\
  Defactorize pid 0 t = (Ok "", t).
Proof.
  intros (env0 & fd0 & c & He0 & Hfd0 & Hc & Hok & Hcok) He Hfd.
  rewrite He in He0. injection He0 as <-. rewrite Hfd in Hfd0. injection Hfd0 as <-.
  split; [|reflexivity]. intros Hi Hrev.
  unfold Defactorize, defactorize. rewrite bool_decide_false by exact Hi.
  rewrite (bind_ok _ _ _ _ _ (get_cache_run pid t c Hc)).
  destruct (cache_getKey c i) as [[s c']|] eqn:Hk.
  - exfalso. destruct (cache_getKey_some _ _ _ _ Hk) as [Hin _].
    destruct Hcok as (_ & _ & Hcf). destruct Hok as (_ & Hfwd & _).
    destruct (Hfwd _ _ (Hcf _ _ Hin)) as [_ Hr]. congruence.
  - rewrite (bind_ok _ _ _ _ _ (read_factor_run pid (fun fd => fd_rev fd !! i) t env fd He Hfd)).
    cbv beta. rewrite Hrev. reflexivity.
Qed.

Lemma defactorize_unknown_witness :
  Defactorize 1 5 tbl_bar = (Err (ErrFactorNotFound 1 5), tbl_bar) /\
  Defactorize 1 0 tbl_bar = (Ok "", tbl_bar).
Proof.
  assert (Hi := tbl_bar_factor_inv).
  assert (E : fmap (fun e => env_factors e !! 1) (t_env tbl_bar) = Some (Some emptyFactorDB))
    by (vm_compute; reflexivity).
  destruct (t_env tbl_bar) as [e|] eqn:He; cbn in E; [|discriminate]. injection E as E.
  assert (Hr : fd_rev emptyFactorDB !! 5 = None) by (vm_compute; reflexivity).
  assert (H5 : 5 <> 0) by lia.
  split.
  - exact (proj1 (defactorize_unknown 1 tbl_bar e emptyFactorDB 5 Hi He E) H5 Hr).
  - exact (proj2 (defactorize_unknown 1 tbl_bar e emptyFactorDB 5 Hi He E)).
Defined.

(** X17: [shardIndex] with a positive shard count picks a shard in
    [0 .. shardCount - 1] and leaves the table as it is; with no shards
    the modulo panics with an integer division by zero. *)
Theorem shard_index_range id t :
  (0 < t_shardCount t ->
   exists i, shardIndex id t = (Ok i, t) /\ 0 <= i < t_shardCount t) /\
  (t_shardCount t = 0 -> shardIndex id t = (Panic "integer divide by zero", t)).
Proof.
  split.
  - intros Hc. exists (Z.rem (hashLocal id) (t_shardCount t)).
    split; [apply shardIndex_run; lia|].
    assert (Hh : 0 <= hashLocal id) by (unfold hashLocal; apply Z.land_nonneg; lia).
    split; [apply Z.rem_nonneg; lia|].
    rewrite Z.rem_mod_nonneg by lia. apply Z.mod_pos_bound. lia.
  - intros Hc. unfold shardIndex, bind, get, crash. cbn.
    rewrite bool_decide_true by exact Hc. reflexivity.
Qed.

Lemma shard_index_range_witness :
  (exists i, shardIndex "obj" tbl = (Ok i, tbl) /\ 0 <= i < t_shardCount tbl) /\
  shardIndex "obj" (mkTable "t" None ∅ ∅ ∅ 0 0 0) =
    (Panic "integer divide by zero", mkTable "t" None ∅ ∅ ∅ 0 0 0).
Proof.
  assert (H1 : 0 < t_shardCount tbl) by (vm_compute; reflexivity).
  assert (H0 : t_shardCount (mkTable "t" None ∅ ∅ ∅ 0 0 0) = 0) by reflexivity.
  split.
  - exact (proj1 (shard_index_range "obj" tbl) H1).
  - exact (proj2 (shard_index_range "obj" (mkTable "t" None ∅ ∅ ∅ 0 0 0)) H0).
Defined.


(* ------------------------------------------------------------------ *)
(** ** Saving and loading the schema *)

Lemma elem_of_props (P : gmap string Property) p :
  p ∈ map snd (map_to_list P) <-> exists n, P !! n = Some p.
Proof.
  rewrite list_elem_of_In, in_map_iff. split.
  - intros [[n q] [<- Hin]]. exists n. apply elem_of_map_to_list, list_elem_of_In. exact Hin.
  - intros [n Hn]. exists (n, p). split; [reflexivity|].
    apply list_elem_of_In, elem_of_map_to_list. exact Hn.
Qed.

Lemma fold_insert_lookup {K} `{Countable K} (f : Property -> K) l (m : gmap K Property) k :
  (forall p q, p ∈ l -> q ∈ l -> f p = f q -> p = q) ->
  (forall p, p ∈ l -> f p = k -> fold_left (fun acc p => <[f p := p]> acc) l m !! k = Some p) /\
  ((forall p, p ∈ l -> f p <> k) -> fold_left (fun acc p => <[f p := p]> acc) l m !! k = m !! k).
Proof.
  revert m. induction l as [|a l IH]; intros m Hu; cbn.
  - split; [intros p Hp; apply elem_of_nil in Hp; contradiction|reflexivity].
  - assert (Hu' : forall p q, p ∈ l -> q ∈ l -> f p = f q -> p = q)
      by (intros p q Hp Hq; apply Hu; apply elem_of_cons; auto).
    destruct (IH (<[f a := a]> m) Hu') as [IH1 IH2].
    split.
    + intros p Hp Hk. apply elem_of_cons in Hp as [->|Hp]; [|exact (IH1 p Hp Hk)].
      destruct (decide (Exists (fun q => f q = k) l)) as [Hex|Hex].
      * apply Exists_exists in Hex as (q & Hq & Hqk).
        rewrite (IH1 q Hq Hqk). f_equal. apply Hu; [apply elem_of_cons; auto|left|congruence].
      * rewrite IH2; [subst k; apply lookup_insert_eq|].
        intros q Hq Hqk. apply Hex, Exists_exists. eauto.
    + intros Hn. rewrite IH2 by (intros q Hq; apply Hn, elem_of_cons; auto).
      apply lookup_insert_ne. intros E. apply (Hn a); [left|]. congruence.
Qed.

Lemma unmarshal_props_split (l : list Property) (a : gmap string Property) (b : gmap Z Property) :
  fold_left (fun acc p => (<[p_Name p := p]> acc.1, <[p_ID p := p]> acc.2)) l (a, b) =
  (fold_left (fun acc p => <[p_Name p := p]> acc) l a,
   fold_left (fun acc p => <[p_ID p := p]> acc) l b).
Proof. revert a b. induction l as [|p l IH]; intros a b; cbn; [reflexivity|]. apply IH. Qed.

(** Decoding the values of a by-name map gives back both maps when they
    index the same properties. *)
Lemma unmarshal_props_of_wf P B :
  maps_wf P B -> unmarshal_props (map snd (map_to_list P)) = (P, B).
Proof.
  intros (Hn & Hb & Hi). unfold unmarshal_props. rewrite unmarshal_props_split.
  set (l := map snd (map_to_list P)).
  assert (Hl : forall p, p ∈ l -> P !! p_Name p = Some p /\ B !! p_ID p = Some p).
  { intros p Hp. apply elem_of_props in Hp as [n Hp].
    pose proof (Hn n p Hp) as E. cbn in E. subst n. split; [exact Hp|exact (Hb _ _ Hp)]. }
  f_equal; apply map_eq; intros k.
  - assert (Hu : forall p q, p ∈ l -> q ∈ l -> p_Name p = p_Name q -> p = q).
    { intros p q Hp Hq E. apply Hl in Hp as [Hp _]. apply Hl in Hq as [Hq _]. congruence. }
    destruct (P !! k) as [p|] eqn:Hk.
    + apply (proj1 (fold_insert_lookup p_Name l ∅ k Hu)).
      * apply elem_of_props. eauto.
      * exact (Hn k p Hk).
    + rewrite (proj2 (fold_insert_lookup p_Name l ∅ k Hu)); [apply lookup_empty|].
      intros p Hp E. apply Hl in Hp as [Hp _]. congruence.
  - assert (Hu : forall p q, p ∈ l -> q ∈ l -> p_ID p = p_ID q -> p = q).
    { intros p q Hp Hq E. apply Hl in Hp as [_ Hp]. apply Hl in Hq as [_ Hq]. congruence. }
    destruct (B !! k) as [p|] eqn:Hk.
    + destruct (Hi k p Hk) as [Hp Hid].
      apply (proj1 (fold_insert_lookup p_ID l ∅ k Hu)); [|exact Hid].
      apply elem_of_props. eauto.
    + rewrite (proj2 (fold_insert_lookup p_ID l ∅ k Hu)); [apply lookup_empty|].
      intros p Hp E. apply Hl in Hp as [_ Hp]. congruence.
Qed.

Lemma load_run t env m :
  t_env t = Some env -> env_meta env = Some m -> load t = (Ok tt, unmarshal_meta (json_meta m) t).
Proof.
  intros He Hm. unfold load, bind, txn, get, ret, modify. rewrite He. cbn. rewrite Hm. reflexivity.
Qed.

Lemma json_property_clean p : json_clean_prop p -> json_property p = p.
Proof. intros [Hn Hd]. destruct p; unfold json_property; cbn in *. rewrite Hn, Hd. reflexivity. Qed.

(** The JSON encoding of the meta record of a table whose strings are
    valid UTF-8 decodes to the record itself. *)
Lemma json_meta_clean t : json_clean t -> json_meta (marshal_meta t) = marshal_meta t.
Proof.
  intros [Hn Hp]. unfold json_meta, marshal_meta.
  cbn [m_name m_shardCount m_maxPermanentID m_maxTransientID m_properties]. rewrite Hn. f_equal.
  assert (Hl : forall p, p ∈ map snd (map_to_list (t_properties t)) -> json_property p = p).
  { intros p Hin. apply elem_of_props in Hin as [n Hin]. exact (json_property_clean p (Hp n p Hin)). }
  induction (map snd (map_to_list (t_properties t))) as [|q l IH]; [reflexivity|].
  cbn. rewrite (Hl q) by (apply elem_of_cons; auto).
  rewrite IH by (intros p Hin; apply Hl, elem_of_cons; auto). reflexivity.
Qed.

(** X20: after a successful [save] of a table whose two property maps
    index the same properties and whose name, property names and data
    types are valid UTF-8 (so that [json.Marshal] keeps them), [load] on
    any table value over the saved environment (as [_open] does on
    reopening) restores the name, the shard count, both id counters and
    both property maps, keeping its own environment and factor caches. *)
Theorem save_load_roundtrip t t' t0 :
  schema_wf t -> json_clean t -> save t = (Ok tt, t') -> t_env t0 = t_env t' ->
  load t0 = (Ok tt, mkTable (t_name t) (t_env t0) (t_properties t) (t_propertiesByID t)
                      (t_caches t0) (t_shardCount t) (t_maxPermanentID t) (t_maxTransientID t)).
Proof.
  intros Hwf Hc Hs He. destruct (save_ok _ _ _ Hs) as (env & _ & _ & ->).
  rewrite (load_run t0 _ (marshal_meta t) He eq_refl).
  rewrite (json_meta_clean t Hc). unfold unmarshal_meta.
  change (m_properties (marshal_meta t)) with (map snd (map_to_list (t_properties t))).
  rewrite (unmarshal_props_of_wf _ _ Hwf). reflexivity.
Qed.

Lemma save_load_roundtrip_witness :
  load (mkTable "other" (t_env (snd (save tbl_baz))) ∅ ∅ ∅ 0 0 0) =
    (Ok tt, mkTable (t_name tbl_baz) (t_env (snd (save tbl_baz))) (t_properties tbl_baz)
              (t_propertiesByID tbl_baz) ∅ (t_shardCount tbl_baz)
              (t_maxPermanentID tbl_baz) (t_maxTransientID tbl_baz)).
Proof.
  assert (Hwf : schema_wf tbl_baz) by (apply (bool_decide_eq_true_1 (schema_wf tbl_baz)); vm_compute; reflexivity).
  assert (Hc : json_clean tbl_baz) by (apply (bool_decide_eq_true_1 (json_clean tbl_baz)); vm_compute; reflexivity).
  assert (Hs : save tbl_baz = (Ok tt, snd (save tbl_baz))) by (vm_compute; reflexivity).
  exact (save_load_roundtrip tbl_baz (snd (save tbl_baz))
           (mkTable "other" (t_env (snd (save tbl_baz))) ∅ ∅ ∅ 0 0 0) Hwf Hc Hs eq_refl).
Defined.

Lemma DeleteProperty_ok_counters name t t' :
  DeleteProperty name t = (Ok tt, t') ->
  t_maxPermanentID t' = t_maxPermanentID t /\ t_maxTransientID t' = t_maxTransientID t.
Proof.
  unfold DeleteProperty. intros H.
  apply bind_ok_inv in H as (u & t0 & Hc & H). apply check_open_inv in Hc as [-> _].
  rewrite bind_get in H. destruct (t_properties t !! name) as [p|] eqn:Hp; [|discriminate].
  apply bind_ok_inv in H as (u2 & t2 & Hm & H). unfold modify in Hm. injection Hm as _ <-.
  apply catch_ok_inv in H as [H|(e & s1 & _ & Hh)]; [|exfalso; exact (restore_never_ok _ _ _ _ _ Hh)].
  destruct (save_ok _ _ _ H) as (env & _ & _ & ->). split; reflexivity.
Qed.

(** X21: the schema invariant that the save and load round trip relies on (the
    by-name and by-id maps index the same properties, and every id lies
    between the two counters, which stay on either side of [0]) is kept
    by every successful [CreateProperty] and [DeleteProperty]; in
    particular a new property never takes the id of an existing one. *)
Theorem schema_invariant t :
  schema_wf t -> schema_ids_ok t ->
  (forall name dt tr p t', CreateProperty name dt tr t = (Ok p, t') ->
     t_propertiesByID t !! p_ID p = None /\ schema_wf t' /\ schema_ids_ok t') /\
  (forall name t', DeleteProperty name t = (Ok tt, t') -> schema_wf t' /\ schema_ids_ok t').
Proof.
  intros (Hn & Hb & Hi) ((Hlo & Hhi) & Hids). split.
  - intros name dt tr p t' H.
    destruct (CreateProperty_ok_inv _ _ _ _ _ _ H)
      as (Hnone & _ & -> & Hmp & Hmt & Hps & Hbs & _).
    set (id := if tr then t_maxTransientID t - 1 else t_maxPermanentID t + 1) in *.
    assert (Hfresh : t_propertiesByID t !! id = None).
    { destruct (t_propertiesByID t !! id) as [q|] eqn:Hq; [|reflexivity].
      specialize (Hids _ _ Hq). subst id. destruct tr; cbn in Hids; lia. }
    cbn [p_ID p_Name] in Hps, Hbs |- *.
    split; [exact Hfresh|]. split; [split; [|split]|split].
    + intros k q Hk. rewrite Hps in Hk. destruct (decide (k = name)) as [->|Hne].
      * rewrite lookup_insert_eq in Hk. injection Hk as <-. reflexivity.
      * rewrite lookup_insert_ne in Hk by congruence. exact (Hn _ _ Hk).
    + intros k q Hk. rewrite Hps in Hk. rewrite Hbs. destruct (decide (k = name)) as [->|Hne].
      * rewrite lookup_insert_eq in Hk. injection Hk as <-. apply lookup_insert_eq.
      * rewrite lookup_insert_ne in Hk by congruence.
        pose proof (Hb _ _ Hk) as Hq. cbn in Hq.
        rewrite lookup_insert_ne; [exact Hq|]. intros E. rewrite E in Hfresh. congruence.
    + intros i q Hq. rewrite Hbs in Hq. rewrite Hps. destruct (decide (i = id)) as [->|Hne].
      * rewrite lookup_insert_eq in Hq. injection Hq as <-. split; [apply lookup_insert_eq|reflexivity].
      * rewrite lookup_insert_ne in Hq by congruence.
        destruct (Hi _ _ Hq) as [Hq' Hqi].
        split; [|exact Hqi].
        rewrite lookup_insert_ne; [exact Hq'|]. intros E. rewrite E, Hq' in Hnone. discriminate.
    + rewrite Hmp, Hmt. destruct tr; lia.
    + intros i q Hq. rewrite Hbs in Hq. rewrite Hmp, Hmt.
      destruct (decide (i = id)) as [->|Hne].
      * subst id. destruct tr; lia.
      * rewrite lookup_insert_ne in Hq by congruence. specialize (Hids _ _ Hq). cbn in Hids.
        destruct tr; lia.
  - intros name t' H.
    destruct (DeleteProperty_ok_inv _ _ _ H) as (p & _ & _ & Hp & _ & _ & Hps & Hbs & _).
    destruct (DeleteProperty_ok_counters _ _ _ H) as [Hmp Hmt].
    pose proof (Hn _ _ Hp) as Hpn. pose proof (Hb _ _ Hp) as Hpb. cbn in Hpn, Hpb.
    split; [split; [|split]|split].
    + intros k q Hk. rewrite Hps in Hk. apply lookup_delete_Some in Hk as [_ Hk]. exact (Hn _ _ Hk).
    + intros k q Hk. rewrite Hps in Hk. apply lookup_delete_Some in Hk as [Hne Hk]. rewrite Hbs.
      pose proof (Hb _ _ Hk) as Hq. pose proof (Hn _ _ Hk) as Hqn. cbn in Hq, Hqn.
      rewrite lookup_delete_ne; [exact Hq|]. intros E. rewrite E, Hq in Hpb.
      injection Hpb as ->. congruence.
    + intros i q Hq. rewrite Hbs in Hq. apply lookup_delete_Some in Hq as [Hne Hq]. rewrite Hps.
      destruct (Hi _ _ Hq) as [Hq' Hqi]. split; [|exact Hqi].
      rewrite lookup_delete_ne; [exact Hq'|]. intros E. rewrite E, Hq' in Hp.
      injection Hp as ->. congruence.
    + rewrite Hmp, Hmt. lia.
    + intros i q Hq. rewrite Hbs in Hq. apply lookup_delete_Some in Hq as [_ Hq].
      rewrite Hmp, Hmt. exact (Hids _ _ Hq).
Qed.

Lemma schema_invariant_witness :
  schema_wf tbl_bar /\ schema_ids_ok tbl_bar /\
  schema_wf (snd (DeleteProperty "bar" tbl_bar)) /\ schema_ids_ok (snd (DeleteProperty "bar" tbl_bar)).
Proof.
  assert (Hw : schema_wf tbl) by (apply (bool_decide_eq_true_1 (schema_wf tbl)); vm_compute; reflexivity).
  assert (Hi : schema_ids_ok tbl)
    by (apply (bool_decide_eq_true_1 (schema_ids_ok tbl)); vm_compute; reflexivity).
  assert (Hc : CreateProperty "bar" Factor false tbl = (Ok (mkProperty 1 "bar" Factor false), tbl_bar))
    by (vm_compute; reflexivity).
  destruct (proj1 (schema_invariant tbl Hw Hi) _ _ _ _ _ Hc) as (_ & Hw' & Hi').
  assert (Hd : DeleteProperty "bar" tbl_bar = (Ok tt, snd (DeleteProperty "bar" tbl_bar)))
    by (vm_compute; reflexivity).
  assert (Hw0 : schema_wf tbl_bar) by exact Hw'.
  assert (Hi0 : schema_ids_ok tbl_bar) by exact Hi'.
  destruct (proj2 (schema_invariant tbl_bar Hw0 Hi0) _ _ Hd) as [Hw2 Hi2].
  split; [exact Hw0|]. split; [exact Hi0|]. split; [exact Hw2|exact Hi2].
Defined.



